(** * Stock tracker bot: a shallow embedding and its verified properties

  The development embeds the polling, notification and purchase core of
    the bot ([BaseRetailer.py], [TargetRetailer.py], [PokemonTracker.py])
  and proves the properties its specification states about it.

  Conventions.
    - A Python [dict] is a [gmap]; iterating it visits every key once, in
    the order of [map_to_list] (Python uses insertion order; no property
    below depends on the order).
    - A Python [float] is a rational [Q]: the code only adds, multiplies,
    compares and tests floats for zero, and no property below depends on
    binary rounding.
    - Everything the code does to the outside world (a request, a sleep, a
    log line, a message) is an [action]; a function that performs effects
    returns the list of its actions in program order.
    - Scraped text is a list of Unicode code points, the unit on which
    [str.replace] and [str.strip] work. *)

From Stdlib Require Import Ascii QArith Qround Lqa.
From stdpp Require Import gmap strings list.

Open Scope Z_scope.

(** ** Scraped text and [extract_price] *)

Module PyText.

Abbreviation text := (list N).

(** [str.isspace] for one code point: the characters [str.strip()]
    removes when called without argument. *)
Definition is_space (c : N) : bool :=
  ((9 <=? c) && (c <=? 13) || (28 <=? c) && (c <=? 32)
   || (c =? 133) || (c =? 160) || (c =? 5760)
   || (8192 <=? c) && (c <=? 8202)
   || (c =? 8232) || (c =? 8233) || (c =? 8239) || (c =? 8287)
   || (c =? 12288))%N.

Fixpoint lstrip (s : text) : text :=
  match s with
  | c :: s' => if is_space c then lstrip s' else s
  | [] => []
  end.

Definition rstrip (s : text) : text := reverse (lstrip (reverse s)).

Definition strip (s : text) : text := rstrip (lstrip s).

(** [s.replace(c, "")] for a one-character [c]. *)
Definition remove_char (c : N) (s : text) : text :=
  filter (λ x, x ≠ c) s.

Definition dollar : N := 36.
Definition euro : N := 8364.
Definition pound : N := 163.
Definition comma : N := 44.

Definition of_ascii (s : string) : text :=
  (λ a, Ascii.N_of_ascii a) <$> String.list_ascii_of_string s.

End PyText.

Module Utility.
Import PyText.

(** The characters [extract_price] removes wherever they stand. *)
Definition symbols : list N := [dollar; euro; pound; comma].

(** [text.replace("$", "").replace("€", "").replace("£", "")
         .replace(",", "").strip()] *)
Definition cleaned_text (s : text) : text :=
  strip (remove_char comma (remove_char pound
          (remove_char euro (remove_char dollar s)))).

Section ExtractPrice.
(** Python's built-in [float(str)]: the parsed value, or [None] where
    it raises [ValueError] (the only exception it raises on a [str]). *)
Context {F : Type} (py_float : text → option F).

(** [if text:] holds for a string that is not empty. *)
Definition extract_price (t : option text) : option F :=
  match t with
  | Some s =>
      match s with
      | [] => None
      | _ => py_float (cleaned_text s)
      end
  | None => None
  end.
End ExtractPrice.

(** A decimal reader used to run [extract_price] on examples: digits with
    an optional fractional part. *)
Definition digit_of (c : N) : option Z :=
  if ((48 <=? c) && (c <=? 57))%N then Some (Z.of_N c - 48) else None.

Fixpoint read_digits (acc : Z) (s : text) : option (Z * text) :=
  match s with
  | [] => Some (acc, [])
  | c :: s' =>
      match digit_of c with
      | Some d => read_digits (acc * 10 + d) s'
      | None => if (c =? 46)%N then Some (acc, s') else None
      end
  end.

Fixpoint read_fraction (num : Z) (den : positive) (s : text) : option Q :=
  match s with
  | [] => Some (Qred (num # den))
  | c :: s' =>
      match digit_of c with
      | Some d => read_fraction (num * 10 + d) (den * 10) s'
      | None => None
      end
  end.

Definition decimal_float (s : text) : option Q :=
  match s with
  | [] => None
  | _ =>
      match read_digits 0 s with
      | Some (n, rest) => read_fraction n 1 rest
      | None => None
      end
  end.

End Utility.

(** ** Python strings used as keys *)

Module PyStr.

(** [str.lower] on the ASCII letters. The only non-ASCII letter in the
    bot's tables is a lower-case e with acute accent, which [str.lower]
    leaves as it is, like every byte outside [A-Z] here. *)
Definition lower_ascii (c : ascii) : ascii :=
  let n := Ascii.N_of_ascii c in
  if ((65 <=? n) && (n <=? 90))%N then Ascii.ascii_of_N (n + 32) else c.

Fixpoint lower (s : string) : string :=
  match s with
  | String c s' => String (lower_ascii c) (lower s')
  | EmptyString => EmptyString
  end.

(** [s.replace(' ', '-')] *)
Fixpoint dash_spaces (s : string) : string :=
  match s with
  | String c s' =>
      String (if decide (c = " "%char) then "-"%char else c) (dash_spaces s')
  | EmptyString => EmptyString
  end.

(** [a, b = s.split(":", 1)]: the text before and after the first colon;
    [None] where the unpacking raises [ValueError] (no colon in [s]). *)
Fixpoint split_colon (s : string) : option (string * string) :=
  match s with
  | String c s' =>
      if decide (c = ":"%char) then Some (EmptyString, s')
      else match split_colon s' with
           | Some (a, b) => Some (String c a, b)
           | None => None
           end
  | EmptyString => None
  end.

(** Truth value of a string: [if s:] *)
Definition truthy (s : string) : bool :=
  match s with EmptyString => false | _ => true end.

End PyStr.

(** ** Effects *)

Inductive level := INFO | WARNING | ERROR.

Inductive req_method := GET | POST | OTHER.

(** The log lines of the code, one constructor per [logger] call. *)
Inductive log_line :=
| SessionInitialized
| ResourceNotFound
| RateLimited (wait_time : Q)
| ServerError (status : Z) (wait_time : Q)
| RequestFailed (m : req_method) (status : Z)
| ClientErrorDuringRequest
| RequestTimedOut (attempt retries : nat)
| UnexpectedError
| AllAttemptsFailed (retries : nat)
| StockTaskError
| NotificationSent (user : Z)
| ServerErrorSending (user : Z)
| ForbiddenSending (user : Z)
| ErrorSending (user : Z)
| UserNotFound (user : Z)
| PurchaseError.

(** The embeds [check_stock_task] builds. *)
Inductive embed :=
| StockAlert (item retailer : string) (in_stock : bool)
    (price : option Q) (url : option string)
| AutoPurchaseSuccessful (item retailer : string) (price : Q).

(** What the commands answer with, one constructor per text or embed. *)
Inductive reply :=
| ProductAdded (product retailer : string) (in_stock : bool)
    (price : option Q) (url : option string)
| AlreadyTracking (product retailer : string)
| ProductRemoved (product : string)
| NotTracking
| StockChanged (product : string) (in_stock : bool)
    (price : option Q) (url : option string)
| NoProducts
| RetailerNotFound
| OutOfStock
| AttemptingPurchase
| FailedToAddToCart
| PurchaseSuccessful
| CheckoutFailed
| ErrorOccurred.

Inductive action :=
| Request (m : req_method)
| Sleep (seconds : Q)
| Log (l : level) (m : log_line)
| ChannelSend (channel user : Z) (e : embed)
| UserSend (user : Z) (message : string)
| TaskDone
| Respond (r : reply)
| Followup (r : reply)
| CallCheckStock (product_id : string)
| CallAddToCart (product_id : string)
| CallCheckout
| AutoPurchase (user : Z) (product : string) (price : Q).

(** A computation that performs effects and either returns or raises. *)
Inductive outcome (A : Type) :=
| Returned (a : A)
| Raised.
Arguments Returned {A} a.
Arguments Raised {A}.

Module Eff.

Definition eff (A : Type) : Type := (list action * outcome A)%type.

Definition ret {A} (a : A) : eff A := ([], Returned a).

Definition raise {A} : eff A := ([], Raised).

Definition tell (l : list action) : eff unit := (l, Returned tt).

Definition bind {A B} (m : eff A) (k : A → eff B) : eff B :=
  match m with
  | (t, Returned a) => let (t', r) := k a in (t ++ t', r)
  | (t, Raised) => (t, Raised)
  end.

(** [try: m except Exception: handler] *)
Definition try_except {A} (m : eff A) (handler : eff A) : eff A :=
  match m with
  | (t, Returned a) => (t, Returned a)
  | (t, Raised) => let (t', r) := handler in (t ++ t', r)
  end.

Definition trace {A} (m : eff A) : list action := fst m.

Definition raised {A} (m : eff A) : bool :=
  match snd m with Raised => true | Returned _ => false end.

(** [for x in l: body x] *)
Fixpoint for_each {A} (l : list A) (body : A → eff unit) : eff unit :=
  match l with
  | [] => ret tt
  | x :: l' => bind (body x) (λ _, for_each l' body)
  end.

End Eff.

#[export] Instance eff_ret : MRet Eff.eff := @Eff.ret.
#[export] Instance eff_bind : MBind Eff.eff := λ A B k m, Eff.bind m k.

(** ** The [random] module *)

Module Random.

(** The generator: an unbounded supply of raw draws and a cursor. *)
Record rng := { bits : nat → N; cursor : nat }.

Definition next (g : rng) : N * rng :=
  (bits g (cursor g), {| bits := bits g; cursor := S (cursor g) |}).

(** [random.random()]: 53 random bits scaled into [0, 1) *)
Definition random (g : rng) : Q * rng :=
  let (b, g') := next g in
  ((Z.of_N (b mod 2 ^ 53) # 2 ^ 53)%Q, g').

(** [random.uniform(a, b)] is [a + (b - a) * random()] *)
Definition uniform (a b : Q) (g : rng) : Q * rng :=
  let (u, g') := random g in
  ((a + (b - a) * u)%Q, g').

(** [random.choice(l)]: an index below [len(l)]; [None] on the empty
    list, where Python raises [IndexError]. *)
Definition choice {A} (l : list A) (g : rng) : option A * rng :=
  let (b, g') := next g in
  (l !! N.to_nat (b mod N.of_nat (length l)), g').

(** [round(x)] to the nearest integer, ties to even *)
Definition round_half_even (q : Q) : Z :=
  let f := Qfloor q in
  match (q - inject_Z f ?= 1 # 2)%Q with
  | Lt => f
  | Gt => f + 1
  | Eq => if Z.even f then f else f + 1
  end.

(** [round(x, 2)], taken on the exact value. The code rounds the binary
    float nearest to it, whose last digit can differ. *)
Definition round2 (q : Q) : Q :=
  (round_half_even (q * 100) # 100)%Q.

Definition constant (n : N) : rng := {| bits := λ _, n; cursor := 0 |}.

Definition script (l : list N) : rng :=
  {| bits := λ i, default 0%N (l !! i); cursor := 0 |}.

End Random.

(** ** [RetailerDatabase] *)

Module RetailerDatabase.
Import PyStr Random.

(** A value of [stock_status]: [(in_stock, price, url)] *)
Abbreviation stock_entry := (bool * option Q * option string)%type.

Record t := mk {
  user_tracking : gmap Z (list string);
  user_buylists : gmap Z (gmap string Q);
  user_channels : gmap Z Z;
  stock_status : gmap string stock_entry
}.

Definition products_by_retailer : list (string * list string) :=
  [ ("Walmart",
     ["Scarlet & Violet ETB"; "Paldean Fates Booster Box"; "Charizard ex Box"]);
    ("Target",
     ["Brilliant Stars ETB"; "Temporal Forces Booster Pack"; "Celebrations Tin"]);
    ("Pokémon Center",
     ["Tera Charizard ex Premium Collection"; "Paldean Fates ETB Plus";
      "Scarlet & Violet 151 Booster Box"]);
    ("Amazon",
     ["Paradox Rift Booster Box"; "Obsidian Flames ETB";
      "Pokémon TCG: Trick or Trade BOOster Bundle"]);
    ("GameStop",
     ["Temporal Forces ETB"; "Scarlet & Violet 151 Mini Tin";
      "Paradox Rift 3-Pack Blister"]);
    ("Best Buy",
     ["Paldean Fates Tin"; "Scarlet & Violet Crown Zenith ETB";
      "Pokémon TCG Battle Academy"]);
    ("PaladinCards",
     ["Neo Genesis Singles"; "Temporal Forces Singles";
      "Charizard VMAX Rainbow Rare"]);
    ("ThePokeCave",
     ["Classic Collection Box"; "Pikachu ex Box"; "Mimikyu V Box"]) ]%string.

(** [f"{retailer}:{product}"] *)
Definition product_key (retailer product : string) : string :=
  retailer +:+ ":" +:+ product.

(** [round(random.uniform(20.0, 120.0), 2) if in_stock else None] *)
Definition sample_price (in_stock : bool) (g : rng) : option Q * rng :=
  if in_stock then
    let (x, g') := uniform 20 120 g in (Some (round2 x), g')
  else (None, g).

(** One pass of the inner loop of [_initialize_sample_stock]. *)
Definition sample_entry (retailer product : string) (g : rng)
  : string * stock_entry * rng :=
  let (r, g1) := random g in
  let in_stock := negb (Qle_bool r (7 # 10)) in
  let (price, g2) := sample_price in_stock g1 in
  let url := "https://example.com/" +:+ lower retailer +:+ "/"
             +:+ dash_spaces (lower product) in
  (product_key retailer product, (in_stock, price, Some url), g2).

Fixpoint initialize_products (retailer : string) (products : list string)
    (stock : gmap string stock_entry) (g : rng)
  : gmap string stock_entry * rng :=
  match products with
  | product :: rest =>
      let '(key, entry, g') := sample_entry retailer product g in
      initialize_products retailer rest (<[key := entry]> stock) g'
  | [] => (stock, g)
  end.

Fixpoint initialize_retailers (table : list (string * list string))
    (stock : gmap string stock_entry) (g : rng)
  : gmap string stock_entry * rng :=
  match table with
  | (retailer, products) :: rest =>
      let (stock', g') := initialize_products retailer products stock g in
      initialize_retailers rest stock' g'
  | [] => (stock, g)
  end.

Definition _initialize_sample_stock (g : rng) : gmap string stock_entry * rng :=
  initialize_retailers products_by_retailer ∅ g.

(** [RetailerDatabase()] *)
Definition init (g : rng) : t * rng :=
  let (stock, g') := _initialize_sample_stock g in
  (mk ∅ ∅ ∅ stock, g').

Definition add_to_tracking (db : t) (user_id : Z) (product : string)
  : t * bool :=
  let tracking :=
    match user_tracking db !! user_id with
    | Some _ => user_tracking db
    | None => <[user_id := []]> (user_tracking db)
    end in
  let l := default [] (tracking !! user_id) in
  if decide (product ∈ l) then
    (mk tracking (user_buylists db) (user_channels db) (stock_status db), false)
  else
    (mk (<[user_id := l ++ [product]]> tracking) (user_buylists db)
        (user_channels db) (stock_status db), true).

(** [l.remove(x)]: drop the first occurrence *)
Fixpoint list_remove (x : string) (l : list string) : list string :=
  match l with
  | y :: l' => if decide (x = y) then l' else y :: list_remove x l'
  | [] => []
  end.

Definition remove_from_tracking (db : t) (user_id : Z) (product : string)
  : t * bool :=
  match user_tracking db !! user_id with
  | Some l =>
      if decide (product ∈ l) then
        (mk (<[user_id := list_remove product l]> (user_tracking db))
            (user_buylists db) (user_channels db) (stock_status db), true)
      else (db, false)
  | None => (db, false)
  end.

Definition get_tracking_list (db : t) (user_id : Z) : list string :=
  default [] (user_tracking db !! user_id).

Definition add_to_buylist (db : t) (user_id : Z) (product : string)
    (price_threshold : Q) : t * bool :=
  let buylist := default ∅ (user_buylists db !! user_id) in
  (mk (user_tracking db)
      (<[user_id := <[product := price_threshold]> buylist]> (user_buylists db))
      (user_channels db) (stock_status db), true).

Definition remove_from_buylist (db : t) (user_id : Z) (product : string)
  : t * bool :=
  match user_buylists db !! user_id with
  | Some buylist =>
      match buylist !! product with
      | Some _ =>
          (mk (user_tracking db)
              (<[user_id := delete product buylist]> (user_buylists db))
              (user_channels db) (stock_status db), true)
      | None => (db, false)
      end
  | None => (db, false)
  end.

Definition get_buylist (db : t) (user_id : Z) : gmap string Q :=
  default ∅ (user_buylists db !! user_id).

Definition set_notification_channel (db : t) (user_id channel_id : Z)
  : t * bool :=
  (mk (user_tracking db) (user_buylists db)
      (<[user_id := channel_id]> (user_channels db)) (stock_status db), true).

Definition get_notification_channel (db : t) (user_id : Z) : option Z :=
  user_channels db !! user_id.

Definition check_stock (db : t) (product : string) : stock_entry :=
  default (false, None, None) (stock_status db !! product).

(** What [simulate_stock_change] returns: [(product, in_stock, price, url)],
    or [None] for [(None, None, None, None)]. *)
Abbreviation change := (string * bool * option Q * option string)%type.

(** [random.choice] draws among the keys and the entry of the drawn key is
    read back from the dict; here the draw is among the items. A dict
    keeps its keys in the order they were inserted; the map lists them in
    an order of its own, so a draw can name another product here than it
    does there. *)
Definition simulate_stock_change (db : t) (g : rng) : option change * t * rng :=
  match map_to_list (stock_status db) with
  | [] => (None, db, g)
  | products =>
      let (drawn, g1) := choice products g in
      match drawn with
      | Some (product, (was_in_stock, _, url)) =>
          let in_stock := negb was_in_stock in
          let (price, g2) := sample_price in_stock g1 in
          (Some (product, in_stock, price, url),
           mk (user_tracking db) (user_buylists db) (user_channels db)
              (<[product := (in_stock, price, url)]> (stock_status db)),
           g2)
      | None => (None, db, g1)
      end
  end.

End RetailerDatabase.

(** ** [PokemonTracker] *)

Module PokemonTracker.
Import PyStr Random RetailerDatabase Eff.

(** The Discord side of one tick: whether [bot.get_channel] finds the
    channel, and whether [channel.send] delivers ([true]) or raises. *)
Record discord := {
  get_channel : Z → bool;
  channel_send : Z → Z → embed → bool
}.

(** The cog's database and the state of the [random] module. *)
Record state := { db : RetailerDatabase.t; rand : rng }.

(** [PokemonTracker(bot)] *)
Definition new (g : rng) : state :=
  let (d, g') := RetailerDatabase.init g in {| db := d; rand := g' |}.

Definition track_add (s : state) (author : Z) (retailer product : string)
  : list action * state :=
  let full_product := product_key retailer product in
  let (db', success) := add_to_tracking (db s) author full_product in
  let s' := {| db := db'; rand := rand s |} in
  if success then
    let '(in_stock, price, url) := check_stock db' full_product in
    ([Respond (ProductAdded product retailer in_stock price url)], s')
  else ([Respond (AlreadyTracking product retailer)], s').

Definition track_remove (s : state) (author : Z) (product : string)
  : list action * state :=
  let (db', success) := remove_from_tracking (db s) author product in
  let s' := {| db := db'; rand := rand s |} in
  if success then
    match split_colon product with
    | Some _ => ([Respond (ProductRemoved product)], s')
    | None => ([], s')
    end
  else ([Respond NotTracking], s').

(** The [/simulate] command *)
Definition simulate_command (s : state) : list action * state :=
  let '(res, db', g') := simulate_stock_change (db s) (rand s) in
  let s' := {| db := db'; rand := g' |} in
  match res with
  | Some (product, in_stock, price, url) =>
      if truthy product then
        match split_colon product with
        | Some _ => ([Respond (StockChanged product in_stock price url)], s')
        | None => ([], s')
        end
      else ([Respond NoProducts], s')
  | None => ([Respond NoProducts], s')
  end.

(** The gate of [check_stock_task]: one time in five a stock change is
    simulated, and it is handled when it names a product. *)
Definition poll (s : state) : option change * state :=
  let (r, g1) := random (rand s) in
  if negb (Qle_bool (2 # 10) r) then
    let '(res, db', g2) := simulate_stock_change (db s) g1 in
    let s' := {| db := db'; rand := g2 |} in
    match res with
    | Some (product, in_stock, price, url) =>
        if truthy product then (Some (product, in_stock, price, url), s')
        else (None, s')
    | None => (None, s')
    end
  else (None, {| db := db s; rand := g1 |}).

(** [if channel_id: channel = get_channel(channel_id);
     if channel: await channel.send(...)] *)
Definition deliver (d : discord) (channel_id : option Z) (user_id : Z)
    (e : embed) : eff unit :=
  match channel_id with
  | Some c =>
      if decide (c = 0) then mret tt
      else if get_channel d c then
             if channel_send d c user_id e
             then tell [ChannelSend c user_id e]
             else raise
           else mret tt
  | None => mret tt
  end.

(** The simulated purchase of the auto-buy branch. *)
Definition auto_purchase (d : discord) (channel_id : option Z) (user_id : Z)
    (product item retailer : string) (price : Q) : eff unit :=
  tell [AutoPurchase user_id product price];;
  deliver d channel_id user_id (AutoPurchaseSuccessful item retailer price).

(** [in_stock and product in buylist and price and price <= buylist[product]]:
    the price to buy at when the condition holds. *)
Definition buy_price (in_stock : bool) (buylist : gmap string Q)
    (product : string) (price : option Q) : option Q :=
  match in_stock, buylist !! product, price with
  | true, Some threshold, Some p =>
      if negb (Qeq_bool p 0) && Qle_bool p threshold then Some p else None
  | _, _, _ => None
  end.

(** The body of the loop over [user_tracking.items()]. *)
Definition notify (d : discord) (db : RetailerDatabase.t) (c : change)
    (retailer item : string) (entry : Z * list string) : eff unit :=
  let '(product, in_stock, price, url) := c in
  let (user_id, tracking_list) := entry in
  if decide (product ∈ tracking_list) then
    let channel_id := get_notification_channel db user_id in
    deliver d channel_id user_id (StockAlert item retailer in_stock price url);;
    match buy_price in_stock (get_buylist db user_id) product price with
    | Some p => auto_purchase d channel_id user_id product item retailer p
    | None => mret tt
    end
  else mret tt.

(** What [check_stock_task] does with a stock change. The loop visits
    [user_tracking.items()] in the order the users were first added; the
    map lists them in an order of its own. Each user is visited once in
    either. *)
Definition fan_out (d : discord) (db : RetailerDatabase.t) (c : change)
  : eff unit :=
  match split_colon (c.1.1.1) with
  | Some (retailer, item) =>
      for_each (map_to_list (user_tracking db)) (notify d db c retailer item)
  | None => raise
  end.

(** The [try] block of [check_stock_task]. *)
Definition check_stock_body (d : discord) (s : state) : eff unit * state :=
  let (event, s') := poll s in
  match event with
  | Some c => (fan_out d (db s') c, s')
  | None => (mret tt, s')
  end.

Definition check_stock_task (d : discord) (s : state) : eff unit * state :=
  let (body, s') := check_stock_body d s in
  (try_except body (tell [Log ERROR StockTaskError]), s').


(** The purchase attempts for a user and a product in a trace. *)
Definition is_attempt (user : Z) (product : string) (a : action) : bool :=
  match a with
  | AutoPurchase u k _ => bool_decide (u = user) && bool_decide (k = product)
  | _ => false
  end.

Definition attempts (user : Z) (product : string) (t : list action) : nat :=
  length (List.filter (is_attempt user product) t).

(** The states the cog goes through: created, then changed by the
    commands and by the runs of the task. *)
Inductive reachable : state → Prop :=
| reach_new g : reachable (new g)
| reach_track_add s u r p :
    reachable s → reachable (track_add s u r p).2
| reach_track_remove s u p :
    reachable s → reachable (track_remove s u p).2
| reach_buylist_add s u r p q :
    reachable s →
    reachable {| db := (add_to_buylist (db s) u (product_key r p) q).1;
                 rand := rand s |}
| reach_buylist_remove s u p :
    reachable s →
    reachable {| db := (remove_from_buylist (db s) u p).1; rand := rand s |}
| reach_settings_channel s u c :
    reachable s →
    reachable {| db := (set_notification_channel (db s) u c).1;
                 rand := rand s |}
| reach_simulate s :
    reachable s → reachable (simulate_command s).2
| reach_tick d s :
    reachable s → reachable (check_stock_task d s).2
| reach_random s g :
    (* another user of the [random] module has drawn from it *)
    reachable s → reachable {| db := db s; rand := g |}.

End PokemonTracker.

(** ** [BaseRetailer] *)

Module BaseRetailer.
Import Random Eff.

Record t := mk {
  name : string;
  base_url : string;
  request_delay : Q;
  _session_initialized : bool
}.

(** What one use of the HTTP session yields: a response with its status
    and text, or one of the exceptions the code tells apart. *)
Inductive exchange :=
| Status (status : Z) (text : string)
| ClientError
| TimeoutError
| OtherException.

(** What one pass of the retry loop decides. *)
Inductive verdict :=
| Return (r : option string)
| Continue.

Definition initialize (self : t) : list action * t :=
  if _session_initialized self then ([], self)
  else ([Log INFO SessionInitialized],
        mk (name self) (base_url self) (request_delay self) true).

(** [2 ** attempt] *)
Definition pow2 (attempt : nat) : Q := inject_Z (2 ^ Z.of_nat attempt).

(** [delay * (2 ** attempt) + random.uniform(a, b)] *)
Definition backoff (delay : Q) (attempt : nat) (a b : Q) (g : rng) : Q * rng :=
  let (jitter, g') := uniform a b g in
  ((delay * pow2 attempt + jitter)%Q, g').

Definition handle_get (delay : Q) (attempt : nat) (x : exchange) (g : rng)
  : list action * verdict * rng :=
  match x with
  | Status status text =>
      if status =? 200 then ([], Return (Some text), g)
      else if status =? 404 then
        ([Log WARNING ResourceNotFound], Return None, g)
      else if status =? 429 then
        let (wait_time, g') := backoff delay attempt 0 1 g in
        ([Log WARNING (RateLimited wait_time); Sleep wait_time], Continue, g')
      else if 500 <=? status then
        let (wait_time, g') := backoff delay attempt 1 3 g in
        ([Log ERROR (ServerError status wait_time); Sleep wait_time],
         Continue, g')
      else ([Log ERROR (RequestFailed GET status)], Return None, g)
  | _ => ([], Continue, g)
  end.

Definition handle_post (delay : Q) (attempt : nat) (x : exchange) (g : rng)
  : list action * verdict * rng :=
  match x with
  | Status status text =>
      if (status =? 200) || (status =? 201) then ([], Return (Some text), g)
      else if 500 <=? status then
        let (wait_time, g') := backoff delay attempt 1 3 g in
        ([Log ERROR (ServerError status wait_time); Sleep wait_time],
         Continue, g')
      else ([Log ERROR (RequestFailed POST status)], Return None, g)
  | _ => ([], Continue, g)
  end.

(** The [except] clauses of the loop body. *)
Definition handle_exception (delay : Q) (attempt retries : nat) (x : exchange)
  : list action :=
  match x with
  | Status _ _ => []
  | ClientError => [Log ERROR ClientErrorDuringRequest; Sleep delay]
  | TimeoutError => [Log ERROR (RequestTimedOut (attempt + 1) retries); Sleep delay]
  | OtherException => [Log ERROR UnexpectedError; Sleep delay]
  end.

(** One pass of [for attempt in range(retries)], its [finally] clause
    included. [x] is what the session yields if a request is made. *)
Definition attempt_once (self : t) (m : req_method) (delay : Q)
    (attempt retries : nat) (x : exchange) (g : rng)
  : list action * verdict * rng :=
  let '(t, v, g') :=
    match m with
    | GET =>
        let '(t, v, g') := handle_get delay attempt x g in
        (Request GET :: t ++ handle_exception delay attempt retries x, v, g')
    | POST =>
        let '(t, v, g') := handle_post delay attempt x g in
        (Request POST :: t ++ handle_exception delay attempt retries x, v, g')
    | OTHER => ([], Continue, g)
    end in
  (t ++ [Sleep (request_delay self)], v, g').

(** The passes from [attempt] on, [remaining] of them; [server i] is the
    exchange of pass [i]. *)
Fixpoint attempt_loop (self : t) (m : req_method) (delay : Q)
    (retries : nat) (server : nat → exchange) (attempt remaining : nat)
    (g : rng) : list action * option string * rng :=
  match remaining with
  | S n =>
      let '(t, v, g1) :=
        attempt_once self m delay attempt retries (server attempt) g in
      match v with
      | Return r => (t, r, g1)
      | Continue =>
          let '(t', r, g2) :=
            attempt_loop self m delay retries server (S attempt) n g1 in
          (t ++ t', r, g2)
      end
  | O => ([Log ERROR (AllAttemptsFailed retries)], None, g)
  end.

(** [retries] is a count: [range(retries)] is empty when it is not
    positive. The default values are [retries = 3] and [delay = 1]. *)
Definition _make_request (self : t) (m : req_method) (retries : nat)
    (delay : Q) (server : nat → exchange) (g : rng)
  : list action * option string * t * rng :=
  let (t0, self') := initialize self in
  let '(t, r, g') := attempt_loop self' m delay retries server 0 retries g in
  (t0 ++ t, r, self', g').

(** Observations on a trace. *)
Definition is_request (a : action) : bool :=
  match a with Request _ => true | _ => false end.

Definition requests (t : list action) : nat :=
  length (List.filter is_request t).

Fixpoint rate_limit_waits (t : list action) : list Q :=
  match t with
  | Log WARNING (RateLimited w) :: t' => w :: rate_limit_waits t'
  | _ :: t' => rate_limit_waits t'
  | [] => []
  end.



End BaseRetailer.

(** ** [TargetRetailer] *)

Module TargetRetailer.
Import Random BaseRetailer.

(** The values of a product's [details] dict. *)
Inductive value :=
| VBool (b : bool)
| VFloat (q : Q)
| VStr (s : string)
| VNone.

Definition new : BaseRetailer.t :=
  BaseRetailer.mk "Target" "https://www.target.com" 2 false.

Definition product_url (self : BaseRetailer.t) : string :=
  base_url self +:+ "/p".

Section Details.
(** The fields read off a product page (BeautifulSoup and JSON parsing). *)
Context (parse_details : string → string → gmap string value).

Definition get_product_details (self : BaseRetailer.t) (product_id : string)
    (server : nat → exchange) (g : rng)
  : list action * gmap string value * BaseRetailer.t * rng :=
  let '(t, html, self', g') := _make_request self GET 3 1 server g in
  match html with
  | Some (String c h) => (t, parse_details product_id (String c h), self', g')
  | _ => (t, ∅, self', g')
  end.

Definition check_stock (self : BaseRetailer.t) (product_id : string)
    (server : nat → exchange) (g : rng)
  : list action * (value * value * value) * BaseRetailer.t * rng :=
  let '(t, details, self', g') := get_product_details self product_id server g in
  (t,
   (default (VBool false) (details !! "in_stock"),
    default VNone (details !! "price"),
    default (VStr (product_url self +:+ "/" +:+ product_id)) (details !! "url")),
   self', g').
End Details.

End TargetRetailer.

(** ** [RetailerCog] *)

Module RetailerCog.
Import PyStr Eff.

(** How [user.send] ends. *)
Inductive delivery :=
| Delivered
| DiscordServerError
| Forbidden
| OtherError.

Record discord := {
  get_user : Z → bool;
  user_send : Z → string → delivery
}.

(** One pass of the loop of [_process_notifications], after
    [notification_queue.get()] returned [(user_id, message)]. *)
Definition process_one (d : discord) (m : Z * string) : list action :=
  let (user_id, message) := m in
  (if get_user d user_id then
     UserSend user_id message ::
     match user_send d user_id message with
     | Delivered => [Log INFO (NotificationSent user_id)]
     | DiscordServerError => [Log ERROR (ServerErrorSending user_id)]
     | Forbidden => [Log ERROR (ForbiddenSending user_id)]
     | OtherError => [Log ERROR (ErrorSending user_id)]
     end
   else [Log WARNING (UserNotFound user_id)])
  ++ [TaskDone; Sleep 1].

(** [while not self.bot.is_closed(): ...]: [closed i] is what
    [is_closed()] answers before pass [i]. The run ends when the bot is
    closed or the queue is empty (where [get()] waits); it returns the
    trace and the messages left in the queue. *)
Fixpoint _process_notifications (d : discord) (closed : nat → bool)
    (pass : nat) (queue : list (Z * string))
  : list action * list (Z * string) :=
  match queue with
  | m :: rest =>
      if closed pass then ([], queue)
      else
        let (t, left) := _process_notifications d closed (S pass) rest in
        (process_one d m ++ t, left)
  | [] => ([], [])
  end.

Definition is_user_send (a : action) : bool :=
  match a with UserSend _ _ => true | _ => false end.

Definition sends (t : list action) : nat :=
  length (List.filter is_user_send t).

(** The retailer methods [buy_command] calls, as they end on this call. *)
Record retailer := {
  check_stock : string → outcome (bool * option Q * option string);
  add_to_cart : string → outcome bool;
  checkout : outcome bool
}.








End RetailerCog.

(** ** The keyword tests and [clean_product_name] *)

Module Keywords.
Import PyText.

(** [hay.startswith(needle)] *)
Fixpoint starts_with (needle hay : text) : bool :=
  match needle, hay with
  | [], _ => true
  | x :: needle', y :: hay' => (x =? y)%N && starts_with needle' hay'
  | _ :: _, [] => false
  end.

(** [needle in hay] *)
Fixpoint contains (needle hay : text) : bool :=
  match hay with
  | [] => starts_with needle []
  | _ :: hay' => starts_with needle hay || contains needle hay'
  end.

Definition in_stock_keywords : list text :=
  [of_ascii "in stock"; of_ascii "available"].

Definition out_of_stock_keywords : list text :=
  [of_ascii "out of stock"; of_ascii "unavailable"].

Section Lower.
(** Python's [str.lower]. *)
Context (py_lower : text → text).

(** [bool(text and any(keyword in text.lower() for keyword in keywords))] *)
Definition any_keyword (keywords : list text) (t : option text) : bool :=
  match t with
  | Some (c :: s) => existsb (λ keyword, contains keyword (py_lower (c :: s))) keywords
  | _ => false
  end.

Definition is_in_stock_keyword (t : option text) : bool :=
  any_keyword in_stock_keywords t.

Definition is_out_of_stock_keyword (t : option text) : bool :=
  any_keyword out_of_stock_keywords t.
End Lower.

(** [name.strip() if name else None] *)
Definition clean_product_name (name : option text) : option text :=
  match name with
  | Some (c :: s) => Some (strip (c :: s))
  | _ => None
  end.

End Keywords.

(** ** [WalmartRetailer._make_request] *)

Module WalmartRetailer.
Import BaseRetailer.

(** What the override does: it logs in its own words and sleeps whole
    seconds. *)
Inductive step :=
| Requested (m : req_method)
| Slept (seconds : Z)
| LoggedClientError (attempt retries : nat)
| LoggedUnexpected.

(** [response.raise_for_status()] raises a [ClientResponseError], which is
    a [ClientError], for a status of 400 or more. *)
Definition raises_for_status (status : Z) : bool := 400 <=? status.

(** The passes from [attempt] on; [server i] is the exchange of pass [i]. *)
Fixpoint attempt_loop (m : req_method) (retries : nat)
    (server : nat → exchange) (attempt remaining : nat)
  : list step * option string :=
  match remaining with
  | S n =>
      let client_error :=
        if (attempt <? retries - 1)%nat then
          let (t, r) := attempt_loop m retries server (S attempt) n in
          (Requested m :: LoggedClientError (attempt + 1) retries
             :: Slept (2 ^ Z.of_nat attempt) :: t, r)
        else
          ([Requested m; LoggedClientError (attempt + 1) retries], None) in
      match server attempt with
      | Status status text =>
          if raises_for_status status then client_error
          else ([Requested m], Some text)
      | ClientError => client_error
      | TimeoutError | OtherException => ([Requested m; LoggedUnexpected], None)
      end
  | O => ([], None)
  end.

(** The default budget is [retries = 3]. *)
Definition _make_request (m : req_method) (retries : nat)
    (server : nat → exchange) : list step * option string :=
  attempt_loop m retries server 0 retries.

Definition is_requested (a : step) : bool :=
  match a with Requested _ => true | _ => false end.

Definition requests (t : list step) : nat :=
  length (List.filter is_requested t).

Fixpoint sleeps (t : list step) : list Z :=
  match t with
  | Slept z :: t' => z :: sleeps t'
  | _ :: t' => sleeps t'
  | [] => []
  end.

(** [2 ** 0, 2 ** 1, ...]: [n] powers from [2 ** k] on *)
Fixpoint doublings (k n : nat) : list Z :=
  match n with
  | S n' => 2 ^ Z.of_nat k :: doublings (S k) n'
  | O => []
  end.

End WalmartRetailer.

(** ** [TargetRetailer.add_to_cart] and [checkout] *)

Module TargetCart.
Import Random BaseRetailer TargetRetailer.

Inductive note :=
| SimulatingAddToCart
| AddedToCart
| FailedOutOfStock
| SimulatingCheckout
| CheckoutCompleted.

(** What the two methods do: the effects of the requests they make, and
    their own log lines. *)
Inductive step :=
| Did (a : action)
| Noted (l : level) (n : note).

(** [if v:] *)
Definition truthy (v : value) : bool :=
  match v with
  | VBool b => b
  | VFloat q => negb (Qeq_bool q 0)
  | VStr s => PyStr.truthy s
  | VNone => false
  end.

Section Details.
Context (parse_details : string → string → gmap string value).

Definition add_to_cart (self : BaseRetailer.t) (product_id : string)
    (server : nat → exchange) (g : rng)
  : list step * bool * BaseRetailer.t * rng :=
  let '(t, (in_stock, _, _), self', g') :=
    check_stock parse_details self product_id server g in
  let before := Noted INFO SimulatingAddToCart :: (Did <$> t) in
  if truthy in_stock
  then (before ++ [Noted INFO AddedToCart], true, self', g')
  else (before ++ [Noted WARNING FailedOutOfStock], false, self', g').
End Details.

Definition checkout : list step * bool :=
  ([Noted INFO SimulatingCheckout; Noted INFO CheckoutCompleted], true).

Definition is_request_step (a : step) : bool :=
  match a with Did (Request _) => true | _ => false end.

End TargetCart.

(** ** [PokemonTracker.track_list] *)

Module TrackList.
Import PyStr.

(** [by_retailer[retailer].append(item)], the retailer added at the end
    when it is new *)
Fixpoint group_append (retailer item : string)
    (groups : list (string * list string)) : list (string * list string) :=
  match groups with
  | (r, items) :: rest =>
      if decide (retailer = r) then (r, items ++ [item]) :: rest
      else (r, items) :: group_append retailer item rest
  | [] => [(retailer, [item])]
  end.

(** The loop that groups the tracked products; [None] where the
    unpacking of [product.split(":", 1)] raises. *)
Fixpoint by_retailer (tracking_list : list string)
    (groups : list (string * list string))
  : option (list (string * list string)) :=
  match tracking_list with
  | product :: rest =>
      match split_colon product with
      | Some (retailer, item) =>
          by_retailer rest (group_append retailer item groups)
      | None => None
      end
  | [] => Some groups
  end.

(** What the command answers: the text for an empty list, or the embed
    with one field per retailer. *)
Inductive listing :=
| NothingTracked
| Fields (groups : list (string * list string)).

Definition track_list (db : RetailerDatabase.t) (author : Z) : option listing :=
  match RetailerDatabase.get_tracking_list db author with
  | [] => Some NothingTracked
  | tracking_list => Fields <$> by_retailer tracking_list []
  end.

(** The product keys a grouping stands for. *)
Definition rejoin (groups : list (string * list string)) : list string :=
  groups ≫= λ g, RetailerDatabase.product_key g.1 <$> g.2.

End TrackList.

(** ** [RetailerDatabase.get_products_by_retailer] *)

Module Catalog.
Import RetailerDatabase.

(** [table.get(retailer, [])] on the dict literal, whose keys are all
    different. *)
Fixpoint table_get (table : list (string * list string)) (retailer : string)
  : list string :=
  match table with
  | (r, products) :: rest =>
      if decide (r = retailer) then products else table_get rest retailer
  | [] => []
  end.

Definition get_products_by_retailer (retailer : string) : list string :=
  table_get products_by_retailer retailer.

(** Every product key of the table. *)
Definition listed_keys : list string :=
  products_by_retailer ≫= λ rp, product_key rp.1 <$> rp.2.

End Catalog.

(** ** The answers [BaseRetailer._make_request] tries again after *)

Module Retry.
Import BaseRetailer.

(** The branches of the loop body that neither return nor leave the
    loop: rate limiting (GET only), server errors and exceptions. *)
Definition retryable (m : req_method) (x : exchange) : bool :=
  match m, x with
  | OTHER, _ => true
  | GET, Status status _ =>
      negb (status =? 200) && negb (status =? 404)
      && ((status =? 429) || (500 <=? status))
  | POST, Status status _ =>
      negb ((status =? 200) || (status =? 201)) && (500 <=? status)
  | _, _ => true
  end.

(** The answers that yield a body. *)
Definition successful (m : req_method) (x : exchange) : option string :=
  match m, x with
  | GET, Status status text => if status =? 200 then Some text else None
  | POST, Status status text =>
      if (status =? 200) || (status =? 201) then Some text else None
  | _, _ => None
  end.

End Retry.

(** ** Observations on traces *)

Module Observe.

Definition is_task_done (a : action) : bool :=
  match a with TaskDone => true | _ => false end.

(** The calls of [notification_queue.task_done()] in a trace. *)
Definition task_dones (t : list action) : nat :=
  length (List.filter is_task_done t).

(** The requests among the steps of [TargetRetailer.add_to_cart]. *)
Definition cart_requests (t : list TargetCart.step) : nat :=
  length (List.filter TargetCart.is_request_step t).

(** Every tracked product names a retailer and an item. *)
Definition tracked_keys_split (db : RetailerDatabase.t) : Prop :=
  ∀ u l, RetailerDatabase.user_tracking db !! u = Some l →
         Forall (λ k, is_Some (PyStr.split_colon k)) l.

End Observe.

(** ** More concrete inputs *)

Module Samples.
Import PyText BaseRetailer.

(** [str.lower] on the ASCII letters, for running the keyword tests. *)
Definition ascii_lower (s : text) : text :=
  (λ c, if ((65 <=? c) && (c <=? 90))%N then (c + 32)%N else c) <$> s.

(** The server answers 429, then 503, then 200. *)
Definition recovering (i : nat) : exchange :=
  match i with
  | O => Status 429 ""
  | S O => Status 503 ""
  | _ => Status 200 "<html>"
  end.

Definition failing_client : nat → exchange := λ _, ClientError.

End Samples.

(** ** Concrete inputs *)

Module Demo.
Import Random RetailerDatabase PokemonTracker.

Definition tin : string := "Target:Celebrations Tin".

Definition tin_url : option string :=
  Some "https://example.com/target/celebrations-tin"%string.

(** User 1 tracks the tin, which is out of stock, and would buy it at 50
    or less. *)
Definition tracked (channels : gmap Z Z) : RetailerDatabase.t :=
  RetailerDatabase.mk {[ 1 := [tin] ]} {[ 1 := {[ tin := 50%Q ]} ]} channels
    {[ tin := (false, None, tin_url) ]}.

(** The draws of one run: [random()] is 0, the first product is chosen
    and the price drawn rounds to 49.99. *)
Definition draws : rng := script [0; 0; 2701259056496823]%N.


(** User 1 is notified in channel 7. *)
Definition wired : state := {| db := tracked {[ 1 := 7 ]}; rand := draws |}.

Definition delivering : discord :=
  {| get_channel := λ _, true; channel_send := λ _ _ _, true |}.

Definition failing : discord :=
  {| get_channel := λ _, true; channel_send := λ _ _ _, false |}.

(** A freshly created cog whose random draws are all 0. *)
Definition fresh : state := new (constant 0).

Definition always (status : Z) : nat → BaseRetailer.exchange :=
  λ _, BaseRetailer.Status status "".

(** Jitter draws 3/4 then 0. *)
Definition jitters : rng := script [6755399441055744; 0]%N.

Definition forbidding : RetailerCog.discord :=
  {| RetailerCog.get_user := λ _, true;
     RetailerCog.user_send := λ _ _, RetailerCog.Forbidden |}.

Definition never_closed : nat → bool := λ _, false.



End Demo.

(** ** The stock alerts of a run *)

Module Notices.



End Notices.

(** ** The bot process *)

Module Bot.
Import Random.

(** The cogs are objects of one process: the tracker cog holds the
    database, [RetailerCog] holds the retailers, and both draw from the
    [random] module. A retailer has no reference to the database. *)
Record t := mk {
  tracker : RetailerDatabase.t;
  retailer : BaseRetailer.t;
  rand : rng
}.

Section Details.
Context (parse_details : string → string → gmap string TargetRetailer.value).

(** [await retailer.check_stock(product_id)], as [stock_command] and
    [buy_command] call it. *)
Definition check_stock (b : t) (product_id : string)
    (server : nat → BaseRetailer.exchange)
  : list action * (TargetRetailer.value * TargetRetailer.value
                   * TargetRetailer.value) * t :=
  let '(tr, stock, self', g') :=
    TargetRetailer.check_stock parse_details (retailer b) product_id server
      (rand b) in
  (tr, stock, mk (tracker b) self' g').
End Details.


End Bot.

(** ** A freshly created cog *)

Module Scenes.
Import Random RetailerDatabase PokemonTracker Demo.






End Scenes.

(** ** Invariants of the database *)

Module Invariant.
Import PyStr RetailerDatabase.

(** Every tracking list holds a product at most once. *)
Definition tracking_nodup (db : RetailerDatabase.t) : Prop :=
  ∀ u l, user_tracking db !! u = Some l → NoDup l.

(** An entry out of stock has no price. *)
Definition price_invariant (db : RetailerDatabase.t) : Prop :=
  ∀ k p u, stock_status db !! k = Some (false, p, u) → p = None.

(** A key names a retailer and an item. *)
Definition key_ok (k : string) : bool :=
  truthy k && bool_decide (is_Some (split_colon k)).

(** The keys of the stock are well formed, an entry in stock has a price of
    at least 20 and an entry out of stock has none. *)
Definition stock_ok (stock : gmap string stock_entry) : Prop :=
  ∀ (k : string) (i : bool) (p : option Q) (u : option string), stock !! k = Some (i, p, u) →
    key_ok k = true ∧
    if i then ∃ q, p = Some q ∧ (20 <= q)%Q else p = None.

(** The keys [_initialize_sample_stock] builds are well formed. *)
Definition table_ok (table : list (string * list string)) : bool :=
  forallb (λ rp, forallb (λ p, key_ok (product_key rp.1 p)) rp.2) table.

End Invariant.

(** * Properties *)

(** ** [extract_price] *)

Module UtilityFacts.
Import PyText Utility.

Lemma remove_char_absent (c : N) (s : text) : c ∉ remove_char c s.
Proof. unfold remove_char. rewrite list_elem_of_filter. tauto. Qed.

Lemma remove_char_subset (c : N) (s : text) (x : N) : x ∈ remove_char c s → x ∈ s.
Proof. unfold remove_char. rewrite list_elem_of_filter. tauto. Qed.

Lemma lstrip_split (s : text) :
  ∃ pre, s = pre ++ lstrip s ∧ Forall (λ c, is_space c = true) pre.
Proof.
  induction s as [|c s [pre [Hs Hpre]]]; simpl.
  - exists []. split; [done | constructor].
  - destruct (is_space c) eqn:Hc.
    + exists (c :: pre). split; [simpl; congruence | by constructor].
    + exists []. split; [done | constructor].
Qed.

Lemma lstrip_head (s : text) (c : N) : head (lstrip s) = Some c → is_space c = false.
Proof.
  induction s as [|x s IH]; simpl; [done |].
  destruct (is_space x) eqn:Hx; [done |].
  simpl. intros [= <-]. done.
Qed.

Lemma lstrip_keeps_last (s : text) (c : N) :
  is_space c = false → last s = Some c → last (lstrip s) = Some c.
Proof.
  intros Hc. induction s as [|x s IH]; simpl; [done |].
  destruct (is_space x) eqn:Hx; [| done].
  destruct s as [|y s]; simpl in *.
  - intros [= ->]. congruence.
  - intros H. apply IH. exact H.
Qed.

Lemma rstrip_split (s : text) :
  ∃ post, s = rstrip s ++ post ∧ Forall (λ c, is_space c = true) post.
Proof.
  unfold rstrip. destruct (lstrip_split (reverse s)) as [pre [Hs Hpre]].
  exists (reverse pre). split.
  - rewrite <- reverse_app, <- Hs. by rewrite reverse_involutive.
  - by apply Forall_reverse.
Qed.

Lemma rstrip_last (s : text) (c : N) : last (rstrip s) = Some c → is_space c = false.
Proof.
  unfold rstrip. rewrite last_reverse. apply lstrip_head.
Qed.

Lemma rstrip_head (s : text) (c : N) : head (rstrip s) = Some c → head s = Some c.
Proof.
  destruct (rstrip_split s) as [post [Hs _]].
  intros H. rewrite Hs. destruct (rstrip s); [done |]. exact H.
Qed.

(** [strip] takes whitespace, and nothing else, off both ends. *)
Lemma strip_split (s : text) :
  ∃ pre post, s = pre ++ strip s ++ post
    ∧ Forall (λ c, is_space c = true) pre
    ∧ Forall (λ c, is_space c = true) post.
Proof.
  destruct (lstrip_split s) as [pre [Hs Hpre]].
  destruct (rstrip_split (lstrip s)) as [post [Hl Hpost]].
  exists pre, post. unfold strip. rewrite <- Hl. done.
Qed.

Lemma strip_ends (s : text) (c : N) :
  head (strip s) = Some c ∨ last (strip s) = Some c → is_space c = false.
Proof.
  unfold strip. intros [H | H].
  - apply rstrip_head in H. by apply lstrip_head in H.
  - by apply rstrip_last in H.
Qed.

Lemma strip_subset (s : text) (x : N) : x ∈ strip s → x ∈ s.
Proof.
  destruct (strip_split s) as [pre [post [Hs _]]].
  intros H. rewrite Hs. rewrite !elem_of_app. auto.
Qed.

Lemma cleaned_text_symbols (s : text) (c : N) : c ∈ symbols → c ∉ cleaned_text s.
Proof.
  unfold symbols, cleaned_text. intros Hc Hin.
  apply strip_subset in Hin.
  assert (Hcomma : c ≠ comma) by (intros ->; by apply remove_char_absent in Hin).
  apply remove_char_subset in Hin.
  assert (Hpound : c ≠ pound) by (intros ->; by apply remove_char_absent in Hin).
  apply remove_char_subset in Hin.
  assert (Heuro : c ≠ euro) by (intros ->; by apply remove_char_absent in Hin).
  apply remove_char_subset in Hin.
  assert (Hdollar : c ≠ dollar) by (intros ->; by apply remove_char_absent in Hin).
  rewrite !elem_of_cons, elem_of_nil in Hc. tauto.
Qed.

Lemma symbols_spec (x : N) :
  x ∉ symbols ↔ x ≠ dollar ∧ x ≠ euro ∧ x ≠ pound ∧ x ≠ comma.
Proof.
  unfold symbols. rewrite !not_elem_of_cons.
  pose proof (not_elem_of_nil x). tauto.
Qed.

Lemma remove_chars_filter (s : text) :
  remove_char comma (remove_char pound (remove_char euro (remove_char dollar s)))
  = filter (λ c, c ∉ symbols) s.
Proof.
  unfold remove_char.
  induction s as [|x s IH]; [done |].
  destruct (decide (x ∉ symbols)) as [Hx | Hx].
  - rewrite (filter_cons_True (λ c, c ∉ symbols)) by done.
    apply symbols_spec in Hx as (H1 & H2 & H3 & H4).
    rewrite (filter_cons_True (λ c, c ≠ dollar)) by done.
    rewrite (filter_cons_True (λ c, c ≠ euro)) by done.
    rewrite (filter_cons_True (λ c, c ≠ pound)) by done.
    rewrite (filter_cons_True (λ c, c ≠ comma)) by done.
    by rewrite IH.
  - rewrite (filter_cons_False (λ c, c ∉ symbols)) by done.
    rewrite <- IH. clear IH.
    destruct (decide (x = dollar)) as [-> | H1].
    { by rewrite (filter_cons_False (λ c, c ≠ dollar)) by tauto. }
    rewrite (filter_cons_True (λ c, c ≠ dollar)) by done.
    destruct (decide (x = euro)) as [-> | H2].
    { by rewrite (filter_cons_False (λ c, c ≠ euro)) by tauto. }
    rewrite (filter_cons_True (λ c, c ≠ euro)) by done.
    destruct (decide (x = pound)) as [-> | H3].
    { by rewrite (filter_cons_False (λ c, c ≠ pound)) by tauto. }
    rewrite (filter_cons_True (λ c, c ≠ pound)) by done.
    destruct (decide (x = comma)) as [-> | H4].
    { by rewrite (filter_cons_False (λ c, c ≠ comma)) by tauto. }
    exfalso. apply Hx. by apply symbols_spec.
Qed.

(** C9. [extract_price] is a total function: [None] for [None], and for a
    string the float read from the text left after every dollar, euro and
    pound sign and every comma is removed and the whitespace is taken off
    both ends; so [None] where [float] rejects that text. [float] rejects
    the empty string, the one input for which the code does not call it. *)
Theorem extract_price_spec {F : Type} (py_float : text → option F) (s : text) :
  py_float [] = None →
  extract_price py_float None = None
  ∧ extract_price py_float (Some s) = py_float (cleaned_text s)
  ∧ (∃ pre post,
       filter (λ c, c ∉ symbols) s = pre ++ cleaned_text s ++ post
       ∧ Forall (λ c, is_space c = true) pre
       ∧ Forall (λ c, is_space c = true) post)
  ∧ (∀ c, c ∈ symbols → c ∉ cleaned_text s)
  ∧ (∀ c, head (cleaned_text s) = Some c ∨ last (cleaned_text s) = Some c →
          is_space c = false).
Proof.
  intros Hempty. split; [done |]. split; [| split; [| split]].
  - destruct s as [|c s]; simpl; [| done].
    by rewrite <- Hempty.
  - rewrite <- remove_chars_filter. apply strip_split.
  - intros c. apply cleaned_text_symbols.
  - intros c. apply strip_ends.
Qed.

Lemma extract_price_spec_witness :
  decimal_float [] = None
  ∧ extract_price decimal_float (Some (of_ascii " $1,234.50 "))
    = decimal_float (cleaned_text (of_ascii " $1,234.50 ")).
Proof.
  split; [reflexivity |].
  apply (extract_price_spec decimal_float (of_ascii " $1,234.50 ")).
  reflexivity.
Defined.

Example extract_price_run :
  extract_price decimal_float (Some (of_ascii " $1,234.50 "))
  = Some (2469 # 2)%Q.
Proof. vm_compute. reflexivity. Qed.

Example extract_price_rejects :
  extract_price decimal_float (Some (of_ascii "N/A")) = None.
Proof. vm_compute. reflexivity. Qed.

End UtilityFacts.

(** ** The [random] module *)

Module RandomFacts.
Import Random.

Lemma random_range (g : rng) : (0 <= (random g).1)%Q ∧ ((random g).1 < 1)%Q.
Proof.
  unfold random, next. cbn [fst].
  assert (H : (bits g (cursor g) mod 2 ^ 53 < 2 ^ 53)%N)
    by (apply N.mod_lt; discriminate).
  assert (Hp : Z.pos (2 ^ 53) = Z.of_N (2 ^ 53)) by reflexivity.
  unfold Qle, Qlt. cbn [Qnum Qden]. rewrite Hp.
  generalize dependent (bits g (cursor g) mod 2 ^ 53)%N.
  generalize (2 ^ 53)%N. intros. lia.
Qed.

Lemma uniform_range (a b : Q) (g : rng) :
  (a <= b)%Q → (a <= (uniform a b g).1)%Q ∧ ((uniform a b g).1 <= b)%Q.
Proof.
  intros Hab. unfold uniform.
  pose proof (random_range g) as [H0 H1].
  destruct (random g) as [u g']. simpl in *.
  assert (Hlo : (0 <= (b - a) * u)%Q) by (apply Qmult_le_0_compat; lra).
  assert (Hhi : (0 <= (b - a) * (1 - u))%Q) by (apply Qmult_le_0_compat; lra).
  split; lra.
Qed.

Lemma round_half_even_floor (q : Q) : Qfloor q ≤ round_half_even q.
Proof.
  unfold round_half_even.
  destruct (q - inject_Z (Qfloor q) ?= 1 # 2)%Q; [destruct (Z.even _) | |]; lia.
Qed.

Lemma round2_at_least (n : Z) (q : Q) :
  (inject_Z n <= q)%Q → (inject_Z n <= round2 q)%Q.
Proof.
  intros H. unfold round2.
  assert (Hf : n * 100 ≤ Qfloor (q * 100)).
  { rewrite <- (Qfloor_Z (n * 100)). apply Qfloor_resp_le.
    rewrite inject_Z_mult. apply Qmult_le_compat_r; [exact H | done]. }
  pose proof (round_half_even_floor (q * 100)) as Hr.
  unfold Qle. simpl. lia.
Qed.

Lemma choice_Some {A} (l : list A) (g : rng) :
  l ≠ [] → ∃ x, (choice l g).1 = Some x ∧ x ∈ l.
Proof.
  intros Hl. unfold choice, next. simpl.
  set (b := bits g (cursor g)).
  assert (Hlt : (N.to_nat (b mod N.of_nat (length l)) < length l)%nat).
  { assert (N.of_nat (length l) ≠ 0%N) by (destruct l; [done | simpl; lia]).
    pose proof (N.mod_lt b (N.of_nat (length l)) H). lia. }
  apply lookup_lt_is_Some_2 in Hlt as [x Hx].
  exists x. split; [exact Hx |]. by eapply list_elem_of_lookup_2.
Qed.

Lemma choice_elem {A} (l : list A) (g : rng) (x : A) :
  (choice l g).1 = Some x → x ∈ l.
Proof.
  unfold choice, next. simpl. apply list_elem_of_lookup_2.
Qed.

End RandomFacts.

(** ** [RetailerDatabase] *)

Module DatabaseFacts.
Import PyStr Random RetailerDatabase Invariant RandomFacts.

Lemma sample_price_spec (in_stock : bool) (g : rng) :
  if in_stock then ∃ q, (sample_price in_stock g).1 = Some q ∧ (20 <= q)%Q
  else sample_price in_stock g = (None, g).
Proof.
  destruct in_stock; [| done].
  unfold sample_price.
  pose proof (uniform_range 20 120 g) as [Hlo _]; [done |].
  destruct (uniform 20 120 g) as [x g']. simpl in *.
  exists (round2 x). split; [done |].
  apply (round2_at_least 20). exact Hlo.
Qed.

Lemma entry_ok_insert (stock : gmap string stock_entry) (k : string)
    (in_stock : bool) (g : rng) (u : option string) :
  stock_ok stock → key_ok k = true →
  stock_ok (<[k := (in_stock, (sample_price in_stock g).1, u)]> stock).
Proof.
  intros Hs Hk k' i p u'. rewrite lookup_insert.
  case_decide as Heq.
  - subst k'. intros [= <- <- <-]. split; [exact Hk |].
    pose proof (sample_price_spec in_stock g) as Hp.
    destruct in_stock; [exact Hp | by rewrite Hp].
  - apply Hs.
Qed.

Lemma products_by_retailer_ok : table_ok products_by_retailer = true.
Proof. vm_compute. reflexivity. Qed.

Lemma initialize_products_ok (retailer : string) (products : list string)
    (stock : gmap string stock_entry) (g : rng) :
  forallb (λ p, key_ok (product_key retailer p)) products = true →
  stock_ok stock →
  stock_ok (initialize_products retailer products stock g).1.
Proof.
  revert stock g. induction products as [|p ps IH]; intros stock g Hk Hs.
  - exact Hs.
  - simpl in Hk. apply andb_true_iff in Hk as [Hp Hps].
    simpl. unfold sample_entry.
    destruct (random g) as [r g1].
    destruct (sample_price (negb (Qle_bool r (7 # 10))) g1) as [price g2] eqn:Hprice.
    apply IH; [exact Hps |].
    replace price with (sample_price (negb (Qle_bool r (7 # 10))) g1).1
      by (by rewrite Hprice).
    by apply entry_ok_insert.
Qed.

Lemma initialize_retailers_ok (table : list (string * list string))
    (stock : gmap string stock_entry) (g : rng) :
  table_ok table = true → stock_ok stock →
  stock_ok (initialize_retailers table stock g).1.
Proof.
  revert stock g. induction table as [|[r ps] rest IH]; intros stock g Hk Hs.
  - exact Hs.
  - simpl in Hk. apply andb_true_iff in Hk as [Hps Hrest].
    simpl.
    pose proof (initialize_products_ok r ps stock g Hps Hs) as H.
    destruct (initialize_products r ps stock g) as [stock' g'].
    by apply IH.
Qed.

Lemma init_stock_ok (g : rng) : stock_ok (stock_status (init g).1).
Proof.
  unfold init, _initialize_sample_stock.
  pose proof (initialize_retailers_ok products_by_retailer ∅ g
                products_by_retailer_ok) as H.
  destruct (initialize_retailers products_by_retailer ∅ g) as [stock g'].
  apply H. intros k i p u. by rewrite lookup_empty.
Qed.

Lemma init_tracking (g : rng) : user_tracking (init g).1 = ∅.
Proof.
  unfold init. by destruct (_initialize_sample_stock g).
Qed.

Lemma stock_ok_price_invariant (db : RetailerDatabase.t) :
  stock_ok (stock_status db) → price_invariant db.
Proof.
  intros H k p u Hk. by destruct (H k false p u Hk) as [_ Hp].
Qed.

(** What [simulate_stock_change] does: nothing on an empty stock;
    otherwise one entry has [in_stock] flipped, a price drawn if it is now
    in stock and none if it is not, and its url kept. *)
Lemma simulate_stock_change_spec (db : RetailerDatabase.t) (g : rng) :
  let '(res, db', g') := simulate_stock_change db g in
  user_tracking db' = user_tracking db
  ∧ user_buylists db' = user_buylists db
  ∧ user_channels db' = user_channels db
  ∧ match res with
    | Some (k, i, p, u) =>
        (∃ p0, stock_status db !! k = Some (negb i, p0, u))
        ∧ stock_status db' = <[k := (i, p, u)]> (stock_status db)
        ∧ (if i then ∃ q, p = Some q ∧ (20 <= q)%Q else p = None)
    | None => db' = db ∧ stock_status db = ∅
    end.
Proof.
  unfold simulate_stock_change.
  destruct (map_to_list (stock_status db)) as [|x l] eqn:Hl.
  - repeat split; try done. by apply map_to_list_empty_iff.
  - assert (Hne : x :: l ≠ []) by done.
    destruct (choice_Some (x :: l) g Hne) as [[k [[i0 p0] u]] [Hc Hin]].
    destruct (choice (x :: l) g) as [drawn g1]. simpl in Hc. subst drawn.
    pose proof (sample_price_spec (negb i0) g1) as Hp.
    destruct (sample_price (negb i0) g1) as [price g2] eqn:Hprice.
    repeat split; try done.
    + exists p0. rewrite negb_involutive.
      rewrite <- Hl in Hin. by apply elem_of_map_to_list in Hin.
    + destruct (negb i0); simpl in Hp; [exact Hp | congruence].
Qed.


Lemma simulate_preserves_tracking (db : RetailerDatabase.t) (g : rng) :
  user_tracking (simulate_stock_change db g).1.2 = user_tracking db.
Proof.
  pose proof (simulate_stock_change_spec db g) as H.
  destruct (simulate_stock_change db g) as [[res db'] g']. simpl. tauto.
Qed.

End DatabaseFacts.

(** ** The tracking list *)

Module TrackingFacts.
Import PyStr Random RetailerDatabase PokemonTracker Invariant DatabaseFacts.

Lemma add_to_tracking_spec (db : RetailerDatabase.t) (u : Z) (k : string) :
  let l := get_tracking_list db u in
  let '(db', added) := add_to_tracking db u k in
  user_tracking db' !! u = Some (if decide (k ∈ l) then l else l ++ [k])
  ∧ added = bool_decide (k ∉ l)
  ∧ (∀ u', u' ≠ u → user_tracking db' !! u' = user_tracking db !! u')
  ∧ user_buylists db' = user_buylists db
  ∧ user_channels db' = user_channels db
  ∧ stock_status db' = stock_status db.
Proof.
  unfold add_to_tracking, get_tracking_list.
  destruct (user_tracking db !! u) as [l|] eqn:Hu; simpl.
  - rewrite Hu. simpl. destruct (decide (k ∈ l)) as [Hin | Hin]; simpl.
    + rewrite bool_decide_eq_false_2 by tauto. repeat split; done.
    + rewrite bool_decide_eq_true_2 by done. rewrite lookup_insert_eq.
      repeat split; try done. intros u' Hne. by rewrite lookup_insert_ne.
  - rewrite lookup_insert_eq. simpl.
    rewrite lookup_insert_eq. repeat split; try done.
    intros u' Hne. by rewrite !lookup_insert_ne.
Qed.

Lemma add_to_tracking_present (db : RetailerDatabase.t) (u : Z) (k : string) :
  k ∈ get_tracking_list db u → add_to_tracking db u k = (db, false).
Proof.
  unfold add_to_tracking, get_tracking_list. intros Hin.
  destruct (user_tracking db !! u) as [l|] eqn:Hu; simpl in *.
  - rewrite Hu. simpl. rewrite decide_True by done. by destruct db.
  - by apply elem_of_nil in Hin.
Qed.

Lemma list_remove_subset (x y : string) (l : list string) :
  y ∈ list_remove x l → y ∈ l.
Proof.
  induction l as [|z l IH]; simpl; [done |].
  destruct (decide (x = z)); rewrite ?elem_of_cons; [auto |].
  intros [-> | H]; auto.
Qed.

Lemma list_remove_nodup (x : string) (l : list string) :
  NoDup l → NoDup (list_remove x l).
Proof.
  induction 1 as [|z l Hz Hl IH]; simpl; [constructor |].
  destruct (decide (x = z)); [done |].
  constructor; [| done]. intros H. by apply list_remove_subset in H.
Qed.

Lemma add_to_tracking_nodup (db : RetailerDatabase.t) (u : Z) (k : string) :
  tracking_nodup db → tracking_nodup (add_to_tracking db u k).1.
Proof.
  intros Hdb. pose proof (add_to_tracking_spec db u k) as H.
  destruct (add_to_tracking db u k) as [db' added]. simpl in *.
  destruct H as (Hu & _ & Hother & _).
  assert (Hl : NoDup (get_tracking_list db u)).
  { unfold get_tracking_list.
    destruct (user_tracking db !! u) eqn:E; [by eapply Hdb | constructor]. }
  intros u' l'. destruct (decide (u' = u)) as [-> | Hne].
  - rewrite Hu. intros [= <-]. case_decide; [done |].
    apply NoDup_app. repeat split; [done | | apply NoDup_singleton].
    intros x Hx Hx'. apply list_elem_of_singleton in Hx'. by subst.
  - rewrite Hother by done. apply Hdb.
Qed.

Lemma remove_from_tracking_nodup (db : RetailerDatabase.t) (u : Z) (k : string) :
  tracking_nodup db → tracking_nodup (remove_from_tracking db u k).1.
Proof.
  intros Hdb. unfold remove_from_tracking.
  destruct (user_tracking db !! u) as [l|] eqn:Hu; [| done].
  case_decide; [| done]. intros u' l'. simpl. rewrite lookup_insert.
  case_decide; [| apply Hdb].
  intros [= <-]. apply list_remove_nodup. by eapply Hdb.
Qed.

Lemma poll_db (s : state) :
  db (poll s).2 = db s
  ∨ ∃ g, db (poll s).2 = (simulate_stock_change (db s) g).1.2.
Proof.
  unfold poll. destruct (random (rand s)) as [r g1].
  destruct (negb (Qle_bool (2 # 10) r)); [| by left].
  right. exists g1.
  destruct (simulate_stock_change (db s) g1) as [[res db'] g2].
  destruct res as [[[[k i] p] u]|]; [destruct (truthy k) |]; done.
Qed.

Lemma check_stock_task_state (d : discord) (s : state) :
  (check_stock_task d s).2 = (poll s).2.
Proof.
  unfold check_stock_task, check_stock_body.
  destruct (poll s) as [[c|] s']; done.
Qed.

Lemma simulate_command_db (s : state) :
  db (simulate_command s).2 = (simulate_stock_change (db s) (rand s)).1.2.
Proof.
  unfold simulate_command.
  destruct (simulate_stock_change (db s) (rand s)) as [[res db'] g'].
  destruct res as [[[[k i] p] u]|]; [| done].
  destruct (truthy k); [destruct (split_colon k) |]; done.
Qed.

Lemma track_add_db (s : state) (u : Z) (r p : string) :
  db (track_add s u r p).2 = (add_to_tracking (db s) u (product_key r p)).1.
Proof.
  unfold track_add.
  destruct (add_to_tracking (db s) u (product_key r p)) as [db' [|]]; simpl.
  - by destruct (check_stock db' (product_key r p)) as [[i q] url].
  - done.
Qed.

Lemma track_remove_db (s : state) (u : Z) (p : string) :
  db (track_remove s u p).2 = (remove_from_tracking (db s) u p).1.
Proof.
  unfold track_remove.
  destruct (remove_from_tracking (db s) u p) as [db' [|]]; simpl; [| done].
  by destruct (split_colon p).
Qed.

(** The invariants of every state the cog reaches. *)
Lemma reachable_tracking_nodup (s : state) :
  reachable s → tracking_nodup (db s).
Proof.
  induction 1 as [g | s u r p _ IH | s u p _ IH | s u r p q _ IH | s u p _ IH
                 | s u c _ IH | s _ IH | d s _ IH | s g _ IH].
  - unfold new. pose proof (init_tracking g) as H.
    destruct (init g) as [d g']. simpl in *.
    intros u l. rewrite H. by rewrite lookup_empty.
  - rewrite track_add_db. by apply add_to_tracking_nodup.
  - rewrite track_remove_db. by apply remove_from_tracking_nodup.
  - exact IH.
  - simpl. unfold remove_from_buylist.
    destruct (user_buylists (db s) !! u) as [b|]; [| exact IH].
    destruct (b !! p); exact IH.
  - exact IH.
  - rewrite simulate_command_db. intros u l.
    rewrite simulate_preserves_tracking. apply IH.
  - rewrite check_stock_task_state.
    destruct (poll_db s) as [-> | [g ->]]; [exact IH |].
    intros u l. rewrite simulate_preserves_tracking. apply IH.
  - exact IH.
Qed.


Lemma filter_absent (k : string) (l : list string) :
  k ∉ l → filter (λ x, x = k) l = [].
Proof.
  induction l as [|y l IH]; [done |].
  rewrite not_elem_of_cons. intros [Hne Hl].
  rewrite filter_cons_False by congruence. by apply IH.
Qed.

Lemma nodup_count_one (k : string) (l : list string) :
  NoDup l → k ∈ l → length (filter (λ x, x = k) l) = 1%nat.
Proof.
  induction 1 as [|x l Hx Hl IH]; [by intros ?%elem_of_nil |].
  rewrite elem_of_cons. intros [-> | Hin].
  - rewrite filter_cons_True by done. simpl.
    by rewrite filter_absent.
  - rewrite filter_cons_False; [by apply IH |]. intros ->. done.
Qed.

(** C6. Adding the same product twice leaves it once in the user's
    tracking list; the second call changes nothing, returns [False], and
    is answered with the "already tracking" text, not with an error. *)
Theorem track_twice_tracks_once (s : state) (u : Z) (r p : string) :
  reachable s →
  let k := product_key r p in
  let s1 := (track_add s u r p).2 in
  let '(t2, s2) := track_add s1 u r p in
  length (filter (λ x, x = k) (get_tracking_list (db s2) u)) = 1%nat
  ∧ add_to_tracking (db s1) u k = (db s1, false)
  ∧ s2 = s1
  ∧ t2 = [Respond (AlreadyTracking p r)].
Proof.
  intros Hs k s1.
  assert (Hnd : tracking_nodup (db s1)).
  { apply reachable_tracking_nodup. by constructor. }
  assert (Hin : k ∈ get_tracking_list (db s1) u).
  { subst s1. rewrite track_add_db. fold k.
    pose proof (add_to_tracking_spec (db s) u k) as H.
    destruct (add_to_tracking (db s) u k) as [db' b]. simpl in *.
    destruct H as (Hu & _). unfold get_tracking_list at 1. rewrite Hu. simpl.
    case_decide; [done |]. apply elem_of_app. right. by apply list_elem_of_singleton. }
  pose proof (add_to_tracking_present (db s1) u k Hin) as Hadd.
  unfold track_add. fold k. rewrite Hadd. simpl.
  assert (Hs1 : {| db := db s1; rand := rand s1 |} = s1) by (by destruct s1).
  rewrite Hs1. repeat split; try done.
  apply nodup_count_one; [| exact Hin].
  unfold get_tracking_list in *.
  destruct (user_tracking (db s1) !! u) as [l|] eqn:E; [by eapply Hnd | constructor].
Qed.

End TrackingFacts.

(** ** Effects *)

Module EffFacts.
Import Eff.

Lemma bind_trace_incl {A B} (m : eff A) (k : A → eff B) (a : action) :
  a ∈ trace (bind m k) → a ∈ trace m ∨ ∃ x, snd m = Returned x ∧ a ∈ trace (k x).
Proof.
  destruct m as [t [x|]]; simpl; [| by left].
  destruct (k x) as [t' r] eqn:Hk. simpl. rewrite elem_of_app.
  intros [H | H]; [by left |]. right. exists x. by rewrite Hk.
Qed.

Lemma bind_returned {A B} (m : eff A) (k : A → eff B) :
  raised (bind m k) = false →
  ∃ x, snd m = Returned x ∧ raised (k x) = false
       ∧ trace (bind m k) = trace m ++ trace (k x).
Proof.
  destruct m as [t [x|]]; simpl; [| done].
  destruct (k x) as [t' r] eqn:Hk. unfold raised. simpl.
  intros Hr. exists x. by rewrite Hk.
Qed.

Lemma bind_count {A B} (f : action → bool) (m : eff A) (k : A → eff B) (n : nat) :
  (∀ x, length (List.filter f (trace (k x))) ≤ n)%nat →
  (length (List.filter f (trace (bind m k)))
   ≤ length (List.filter f (trace m)) + n)%nat.
Proof.
  intros Hk. destruct m as [t [x|]]; simpl; [| lia].
  specialize (Hk x). destruct (k x) as [t' r]. simpl in *.
  rewrite List.filter_app, length_app. lia.
Qed.

Lemma try_except_never_raises {A} (m : eff A) (t : list action) (a : A) :
  raised (try_except m (t, Returned a)) = false.
Proof. by destruct m as [t0 [x|]]. Qed.

Lemma try_except_trace {A} (m : eff A) (t : list action) (a : A) :
  trace (try_except m (t, Returned a))
  = if raised m then trace m ++ t else trace m.
Proof. by destruct m as [t0 [x|]]. Qed.

(** A loop that does not raise ran every pass, none of which raised. *)
Lemma for_each_returned {A} (l : list A) (body : A → eff unit) :
  raised (for_each l body) = false →
  trace (for_each l body) = concat ((λ x, trace (body x)) <$> l)
  ∧ ∀ x, x ∈ l → raised (body x) = false.
Proof.
  induction l as [|x l IH]; simpl.
  - intros _. split; [done |]. by intros x ?%elem_of_nil.
  - intros H. apply bind_returned in H as ([] & Hx & Hl & Ht).
    destruct (IH Hl) as [IHt IHr]. split.
    + rewrite Ht. by rewrite IHt.
    + intros y [-> | Hy]%elem_of_cons; [| by apply IHr].
      unfold raised. by rewrite Hx.
Qed.

(** Whatever a loop does, one of its passes did. *)
Lemma for_each_incl {A} (l : list A) (body : A → eff unit) (a : action) :
  a ∈ trace (for_each l body) → ∃ x, x ∈ l ∧ a ∈ trace (body x).
Proof.
  induction l as [|x l IH]; simpl; [by intros ?%elem_of_nil |].
  intros [H | (_ & _ & H)]%bind_trace_incl.
  - exists x. split; [by left | done].
  - destruct (IH H) as (y & Hy & Ha). exists y. split; [by right | done].
Qed.

Lemma for_each_count {A} (f : action → bool) (l : list A)
    (body : A → eff unit) (bound : A → nat) :
  (∀ x, length (List.filter f (trace (body x))) ≤ bound x)%nat →
  (length (List.filter f (trace (for_each l body))) ≤ sum_list (bound <$> l))%nat.
Proof.
  intros Hb. induction l as [|x l IH]; [simpl; lia |].
  change (for_each (x :: l) body) with (bind (body x) (λ _, for_each l body)).
  rewrite fmap_cons.
  change (sum_list (bound x :: (bound <$> l)))
    with (bound x + sum_list (bound <$> l))%nat.
  pose proof (bind_count f (body x) (λ _, for_each l body)
                (sum_list (bound <$> l)) (λ _, IH)) as H.
  specialize (Hb x). lia.
Qed.

End EffFacts.

(** ** One run of [check_stock_task] *)

Module TickFacts.
Import PyStr Random RetailerDatabase PokemonTracker Invariant.
Import DatabaseFacts TrackingFacts Eff EffFacts.

Lemma deliver_cases (d : discord) (ch : option Z) (u : Z) (e : embed) :
  deliver d ch u e = ([], Returned tt)
  ∨ deliver d ch u e = ([], Raised)
  ∨ ∃ c, ch = Some c ∧ c ≠ 0 ∧ get_channel d c = true
         ∧ deliver d ch u e = ([ChannelSend c u e], Returned tt).
Proof.
  unfold deliver. destruct ch as [c|]; [| by left].
  case_decide; [by left |].
  destruct (get_channel d c) eqn:Hc; [| by left].
  destruct (channel_send d c u e); [| by right; left].
  right. right. by exists c.
Qed.

Lemma buy_price_spec (i : bool) (bl : gmap string Q) (k : string)
    (p : option Q) (q : Q) :
  buy_price i bl k p = Some q ↔
  i = true ∧ p = Some q ∧ ¬ (q == 0)%Q ∧ ∃ T, bl !! k = Some T ∧ (q <= T)%Q.
Proof.
  unfold buy_price. split.
  - destruct i; [| done]. destruct (bl !! k) as [T|]; [| done].
    destruct p as [p|]; [| done].
    destruct (negb (Qeq_bool p 0) && Qle_bool p T) eqn:Hc; [| done].
    intros [= ->]. apply andb_true_iff in Hc as [H0 HT].
    apply negb_true_iff in H0. apply Qle_bool_iff in HT.
    repeat split; try done.
    + intros Hq. apply Qeq_bool_iff in Hq. congruence.
    + by exists T.
  - intros (-> & -> & H0 & T & -> & HT).
    assert (Qeq_bool q 0 = false) as ->.
    { destruct (Qeq_bool q 0) eqn:E; [| done]. by apply Qeq_bool_iff in E. }
    apply Qle_bool_iff in HT. by rewrite HT.
Qed.

Lemma attempts_app (u : Z) (k : string) (t t' : list action) :
  attempts u k (t ++ t') = (attempts u k t + attempts u k t')%nat.
Proof. unfold attempts. by rewrite List.filter_app, length_app. Qed.

Lemma attempts_pos (u : Z) (k : string) (t : list action) :
  (0 < attempts u k t)%nat ↔ ∃ q, AutoPurchase u k q ∈ t.
Proof.
  unfold attempts. induction t as [|a t IH]; simpl.
  - split; [lia | intros [q H]; by apply elem_of_nil in H].
  - destruct (is_attempt u k a) eqn:Ha.
    + split; [intros _ | simpl; lia].
      destruct a; try done. unfold is_attempt in Ha.
      apply andb_true_iff in Ha as [->%bool_decide_eq_true ->%bool_decide_eq_true].
      eexists. by left.
    + rewrite IH. split; intros [q H]; exists q.
      * by right.
      * apply elem_of_cons in H as [<- | H]; [| done].
        unfold is_attempt in Ha.
        by rewrite !bool_decide_eq_true_2 in Ha by done.
Qed.

(** The shape of one pass of the loop over the users. *)
Lemma notify_cases (d : discord) (db : RetailerDatabase.t) (k : string)
    (i : bool) (p : option Q) (url : option string) (r it : string)
    (uid : Z) (tl : list string) :
  let m := notify d db (k, i, p, url) r it (uid, tl) in
  let bought := buy_price i (get_buylist db uid) k p in
  ((k ∉ tl) ∧ m = ([], Returned tt))
  ∨ (k ∈ tl ∧ raised m = true ∧ ∀ a, a ∈ trace m → ∃ c e, a = ChannelSend c uid e)
  ∨ (k ∈ tl ∧ bought = None ∧ raised m = false
     ∧ ∀ a, a ∈ trace m → ∃ c e, a = ChannelSend c uid e)
  ∨ (k ∈ tl ∧ ∃ q t t', bought = Some q
     ∧ trace m = t ++ AutoPurchase uid k q :: t'
     ∧ (∀ a, a ∈ t ++ t' → ∃ c e, a = ChannelSend c uid e)).
Proof.
  simpl. destruct (decide (k ∈ tl)) as [Hin | Hin]; [| by left].
  right.
  destruct (deliver_cases d (get_notification_channel db uid) uid
              (StockAlert it r i p url)) as [Ha | [Ha | (c & _ & _ & _ & Ha)]];
    rewrite Ha; clear Ha.
  - destruct (buy_price i (get_buylist db uid) k p) as [q|] eqn:Hb.
    + right. right. split; [done |]. exists q.
      unfold auto_purchase.
      destruct (deliver_cases d (get_notification_channel db uid) uid
                  (AutoPurchaseSuccessful it r q)) as [Hd | [Hd | (c & _ & _ & _ & Hd)]];
        rewrite Hd; clear Hd.
      * exists [], []. repeat split; try done. by intros a ?%elem_of_nil.
      * exists [], []. repeat split; try done. by intros a ?%elem_of_nil.
      * exists [], [ChannelSend c uid (AutoPurchaseSuccessful it r q)].
        repeat split; try done.
        intros a ->%list_elem_of_singleton. eauto.
    + right. left. repeat split; try done. by intros a ?%elem_of_nil.
  - left. repeat split; try done. by intros a ?%elem_of_nil.
  - destruct (buy_price i (get_buylist db uid) k p) as [q|] eqn:Hb.
    + right. right. split; [done |]. exists q.
      unfold auto_purchase.
      destruct (deliver_cases d (get_notification_channel db uid) uid
                  (AutoPurchaseSuccessful it r q)) as [Hd | [Hd | (c' & _ & _ & _ & Hd)]];
        rewrite Hd; clear Hd.
      * exists [ChannelSend c uid (StockAlert it r i p url)], [].
        repeat split; try done.
        intros a Ha. rewrite app_nil_r in Ha.
        apply list_elem_of_singleton in Ha as ->. eauto.
      * exists [ChannelSend c uid (StockAlert it r i p url)], [].
        repeat split; try done.
        intros a Ha. rewrite app_nil_r in Ha.
        apply list_elem_of_singleton in Ha as ->. eauto.
      * exists [ChannelSend c uid (StockAlert it r i p url)],
          [ChannelSend c' uid (AutoPurchaseSuccessful it r q)].
        repeat split; try done.
        intros a Ha. simpl in Ha.
        apply elem_of_cons in Ha as [-> | ->%list_elem_of_singleton]; eauto.
    + right. left. repeat split; try done.
      intros a ->%list_elem_of_singleton. eauto.
Qed.

Lemma sends_no_attempts (u uid : Z) (k : string) (t : list action) :
  (∀ a, a ∈ t → ∃ c e, a = ChannelSend c uid e) → attempts u k t = 0%nat.
Proof.
  intros H. destruct (attempts u k t) eqn:E; [done |].
  assert (Hpos : (0 < attempts u k t)%nat) by lia.
  apply attempts_pos in Hpos as [q Hq].
  by destruct (H _ Hq) as (c & e & ?).
Qed.

Lemma notify_attempts_le (d : discord) (db : RetailerDatabase.t) (c : change)
    (r it : string) (e : Z * list string) (u : Z) (k : string) :
  (attempts u k (trace (notify d db c r it e))
   ≤ if decide (e.1 = u) then 1 else 0)%nat.
Proof.
  destruct c as [[[k0 i] p] url]. destruct e as [uid tl].
  cbn [fst].
  destruct (notify_cases d db k0 i p url r it uid tl)
    as [[_ ->] | [(_ & _ & H) | [(_ & _ & _ & H) | (_ & q & t & t' & _ & -> & H)]]].
  - cbn. lia.
  - rewrite (sends_no_attempts u uid k _ H). lia.
  - rewrite (sends_no_attempts u uid k _ H). lia.
  - rewrite attempts_app.
    change (AutoPurchase uid k0 q :: t') with ([AutoPurchase uid k0 q] ++ t').
    rewrite attempts_app.
    rewrite (sends_no_attempts u uid k t), (sends_no_attempts u uid k t').
    + unfold attempts, is_attempt. cbn [List.filter]. case_decide.
      * destruct (bool_decide (uid = u) && bool_decide (k0 = k)); cbn; lia.
      * rewrite (bool_decide_eq_false_2 (uid = u)) by done. cbn. lia.
    + intros a Ha. apply H. apply elem_of_app. by right.
    + intros a Ha. apply H. apply elem_of_app. by left.
Qed.

Lemma notify_attempt_inv (d : discord) (db : RetailerDatabase.t) (k0 : string)
    (i : bool) (p : option Q) (url : option string) (r it : string)
    (uid : Z) (tl : list string) (u : Z) (k : string) (q : Q) :
  AutoPurchase u k q ∈ trace (notify d db (k0, i, p, url) r it (uid, tl)) →
  u = uid ∧ k = k0 ∧ k0 ∈ tl ∧ buy_price i (get_buylist db uid) k0 p = Some q.
Proof.
  destruct (notify_cases d db k0 i p url r it uid tl)
    as [[_ ->] | [(_ & _ & H) | [(_ & _ & _ & H) | (Hin & q' & t & t' & Hb & -> & H)]]].
  - by intros ?%elem_of_nil.
  - intros Ha. by destruct (H _ Ha) as (? & ? & ?).
  - intros Ha. by destruct (H _ Ha) as (? & ? & ?).
  - rewrite elem_of_app, elem_of_cons. intros [Ha | [[= -> -> ->] | Ha]].
    + assert (Ha' : AutoPurchase u k q ∈ t ++ t') by (apply elem_of_app; by left).
      by destruct (H _ Ha') as (? & ? & ?).
    + done.
    + assert (Ha' : AutoPurchase u k q ∈ t ++ t') by (apply elem_of_app; by right).
      by destruct (H _ Ha') as (? & ? & ?).
Qed.



Lemma sum_list_cons (a : nat) (r : list nat) :
  sum_list (a :: r) = (a + sum_list r)%nat.
Proof. reflexivity. Qed.

Lemma sum_indicator_absent (u : Z) (l : list (Z * list string)) :
  u ∉ l.*1 →
  sum_list ((λ e, if decide (e.1 = u) then 1 else 0)%nat <$> l) = 0%nat.
Proof.
  induction l as [|[u' tl] l IH]; [done |].
  rewrite !fmap_cons, sum_list_cons. cbn [fst].
  intros [Hne Hu]%not_elem_of_cons.
  rewrite decide_False by done. by rewrite IH.
Qed.

Lemma sum_indicator (u : Z) (l : list (Z * list string)) :
  NoDup l.*1 →
  (sum_list ((λ e, if decide (e.1 = u) then 1 else 0)%nat <$> l) ≤ 1)%nat.
Proof.
  induction l as [|[u' tl] l IH]; [cbn; lia |].
  rewrite !fmap_cons, sum_list_cons. cbn [fst].
  intros [Hu' Hl]%NoDup_cons. specialize (IH Hl).
  case_decide; [| lia]. subst u'.
  rewrite sum_indicator_absent by done. lia.
Qed.

(** What a stock change sets off. *)
Lemma fan_out_attempts_le (d : discord) (db : RetailerDatabase.t) (c : change)
    (u : Z) (k : string) :
  (attempts u k (trace (fan_out d db c)) ≤ 1)%nat.
Proof.
  unfold fan_out. destruct (split_colon c.1.1.1) as [[r it]|]; [| cbn; lia].
  etrans.
  - apply (for_each_count (is_attempt u k) _ _
             (λ e, if decide (e.1 = u) then 1 else 0)%nat).
    intros e. apply notify_attempts_le.
  - apply sum_indicator, NoDup_fst_map_to_list.
Qed.

Lemma fan_out_attempt_inv (d : discord) (db : RetailerDatabase.t) (k0 : string)
    (i : bool) (p : option Q) (url : option string) (u : Z) (k : string) (q : Q) :
  AutoPurchase u k q ∈ trace (fan_out d db (k0, i, p, url)) →
  k = k0 ∧ ∃ tl, user_tracking db !! u = Some tl ∧ k0 ∈ tl
                 ∧ buy_price i (get_buylist db u) k0 p = Some q.
Proof.
  unfold fan_out. simpl.
  destruct (split_colon k0) as [[r it]|]; [| by intros ?%elem_of_nil].
  intros ([uid tl] & He & Ha)%for_each_incl.
  apply notify_attempt_inv in Ha as (-> & -> & Hin & Hb).
  split; [done |]. exists tl. by apply elem_of_map_to_list in He.
Qed.



Lemma check_stock_task_unfold (d : discord) (s : state) :
  check_stock_task d s
  = (match (poll s).1 with
     | Some c => try_except (fan_out d (db (poll s).2) c)
                   (tell [Log ERROR StockTaskError])
     | None => ([], Returned tt)
     end, (poll s).2).
Proof.
  unfold check_stock_task, check_stock_body.
  by destruct (poll s) as [[c|] s'].
Qed.

(** The change [poll] hands over is the one written to the stock. *)
Lemma poll_event (s : state) (k : string) (i : bool) (p : option Q)
    (url : option string) :
  (poll s).1 = Some (k, i, p, url) →
  truthy k = true
  ∧ (∃ p0, stock_status (db s) !! k = Some (negb i, p0, url))
  ∧ stock_status (db (poll s).2) = <[k := (i, p, url)]> (stock_status (db s))
  ∧ (if i then ∃ q, p = Some q ∧ (20 <= q)%Q else p = None)
  ∧ user_tracking (db (poll s).2) = user_tracking (db s)
  ∧ user_buylists (db (poll s).2) = user_buylists (db s)
  ∧ user_channels (db (poll s).2) = user_channels (db s).
Proof.
  unfold poll. destruct (random (rand s)) as [r g1].
  destruct (negb (Qle_bool (2 # 10) r)); [| done].
  pose proof (simulate_stock_change_spec (db s) g1) as H.
  destruct (simulate_stock_change (db s) g1) as [[res db'] g2].
  destruct H as (Ht & Hb & Hc & H).
  destruct res as [[[[k' i'] p'] u']|]; [| done].
  destruct (truthy k') eqn:Hk; [| done].
  simpl. intros [= -> -> -> ->]. tauto.
Qed.


Lemma check_stock_insert (db db' : RetailerDatabase.t) (k k' : string)
    (e : stock_entry) :
  stock_status db' = <[k := e]> (stock_status db) →
  check_stock db' k' = if decide (k = k') then e else check_stock db k'.
Proof.
  intros H. unfold check_stock. rewrite H, lookup_insert.
  by case_decide.
Qed.

Lemma attempts_le_one (d : discord) (s : state) (u : Z) (k : string) :
  (attempts u k (trace (check_stock_task d s).1) ≤ 1)%nat.
Proof.
  rewrite check_stock_task_unfold. cbn [fst].
  destruct (poll s).1 as [c|]; [| cbn; lia].
  unfold tell. rewrite try_except_trace.
  pose proof (fan_out_attempts_le d (db (poll s).2) c u k).
  destruct (raised _); [| done].
  rewrite attempts_app.
  change (attempts u k [Log ERROR StockTaskError]) with 0%nat. lia.
Qed.

(** An attempt is made only for a product that was out of stock and is
    now in stock within the threshold. *)
Lemma attempt_on_crossing (d : discord) (s : state) (u : Z) (k : string) :
  (0 < attempts u k (trace (check_stock_task d s).1))%nat →
  ∃ p0 q url T,
    check_stock (db s) k = (false, p0, url)
    ∧ check_stock (db (check_stock_task d s).2) k = (true, Some q, url)
    ∧ get_buylist (db (check_stock_task d s).2) u !! k = Some T ∧ (q <= T)%Q.
Proof.
  rewrite check_stock_task_unfold. cbn [fst snd].
  destruct (poll s).1 as [[[[k0 i] p] url]|] eqn:He; [| cbn; lia].
  unfold tell. rewrite try_except_trace. intros Hpos.
  assert (Hpos' : (0 < attempts u k (trace (fan_out d (db (poll s).2) (k0, i, p, url))))%nat).
  { destruct (raised _); [| done]. rewrite attempts_app in Hpos.
    change (attempts u k [Log ERROR StockTaskError]) with 0%nat in Hpos.
    lia. }
  apply attempts_pos in Hpos' as [q Hq].
  apply fan_out_attempt_inv in Hq as (-> & tl & _ & _ & Hb).
  apply buy_price_spec in Hb as (-> & -> & _ & T & HT & Hle').
  apply poll_event in He as (_ & [p0 Hk] & Hst & _).
  exists p0, q, url, T. repeat split; try done.
  - unfold check_stock. by rewrite Hk.
  - rewrite (check_stock_insert _ _ _ _ _ Hst). by rewrite decide_True.
Qed.

(** C2. A run of [check_stock_task] makes at most one purchase attempt
    for a user and a product, and only on a crossing: the product was out
    of stock before the run and is in stock after it, at a price within
    the user's threshold. So a run that leaves the state of the product
    as it was makes no attempt, and neither does the run that follows one
    with an attempt. *)
Theorem at_most_one_purchase_per_crossing (d d2 : discord) (s : state)
    (u : Z) (k : string) :
  let '(m, s') := check_stock_task d s in
  (attempts u k (trace m) ≤ 1)%nat
  ∧ (attempts u k (trace m) = 1%nat →
     ∃ p0 q url T,
       check_stock (db s) k = (false, p0, url)
       ∧ check_stock (db s') k = (true, Some q, url)
       ∧ get_buylist (db s') u !! k = Some T ∧ (q <= T)%Q)
  ∧ (check_stock (db s') k = check_stock (db s) k →
     attempts u k (trace m) = 0%nat)
  ∧ (attempts u k (trace m) = 1%nat →
     attempts u k (trace (check_stock_task d2 s').1) = 0%nat).
Proof.
  pose proof (attempts_le_one d s u k) as H1.
  pose proof (attempt_on_crossing d s u k) as H2.
  pose proof (attempt_on_crossing d2 (check_stock_task d s).2 u k) as H3.
  pose proof (attempts_le_one d2 (check_stock_task d s).2 u k) as H4.
  destruct (check_stock_task d s) as [m s']. cbn [fst snd] in *.
  split; [done |]. split; [| split].
  - intros Hone. apply H2. lia.
  - intros Heq. destruct (attempts u k (trace m)) eqn:E; [done |].
    destruct H2 as (p0 & q & url & T & Hb & Ha & _); [lia |].
    rewrite Heq in Ha. congruence.
  - intros Hone.
    destruct (attempts u k (trace (check_stock_task d2 s').1)) eqn:E; [done |].
    destruct H2 as (p0 & q & url & T & _ & Ha & _); [lia |].
    destruct H3 as (p0' & q' & url' & T' & Hb & _); [lia |].
    congruence.
Qed.







(** The purchase message goes out exactly when the user's channel is set
    and found, and the send succeeds. *)
Lemma auto_purchase_message (d : discord) (ch : option Z) (u : Z)
    (k it r : string) (q : Q) :
  let m := auto_purchase d ch u k it r q in
  AutoPurchase u k q ∈ trace m
  ∧ ((∃ c, ChannelSend c u (AutoPurchaseSuccessful it r q) ∈ trace m)
     ↔ ∃ c, ch = Some c ∧ c ≠ 0 ∧ get_channel d c = true
            ∧ channel_send d c u (AutoPurchaseSuccessful it r q) = true).
Proof.
  unfold auto_purchase, deliver. simpl.
  destruct ch as [c|].
  - case_decide as Hc.
    + split; [by left |]. split.
      * intros [c' H]. apply elem_of_cons in H as [? | ?%elem_of_nil]; done.
      * intros (c' & [= <-] & ? & _). done.
    + destruct (get_channel d c) eqn:Hg.
      * destruct (channel_send d c u _) eqn:Hsend; simpl.
        -- split; [by left |]. split; [intros _; by exists c |].
           intros _. exists c. right. by left.
        -- split; [by left |]. split.
           ++ intros [c' H]. apply elem_of_cons in H as [? | ?%elem_of_nil]; done.
           ++ intros (c' & [= <-] & _ & _ & ?). congruence.
      * split; [by left |]. split.
        -- intros [c' H]. apply elem_of_cons in H as [? | ?%elem_of_nil]; done.
        -- intros (c' & [= <-] & _ & ? & _). congruence.
  - split; [by left |]. split.
    + intros [c' H]. apply elem_of_cons in H as [? | ?%elem_of_nil]; done.
    + intros (c' & ? & _). done.
Qed.

(** A message goes out only through the channel the user has set, when
    it is found. *)
Lemma deliver_send (d : discord) (cid : option Z) (uid : Z) (e : embed)
    (ch u : Z) (em : embed) :
  ChannelSend ch u em ∈ trace (deliver d cid uid e) →
  cid = Some ch ∧ u = uid ∧ ch ≠ 0 ∧ get_channel d ch = true.
Proof.
  destruct (deliver_cases d cid uid e) as [-> | [-> | (c & -> & Hc & Hg & ->)]].
  - by intros ?%elem_of_nil.
  - by intros ?%elem_of_nil.
  - intros [= -> -> ->]%list_elem_of_singleton. done.
Qed.

Lemma notify_send (d : discord) (db : RetailerDatabase.t) (c : change)
    (r it : string) (e : Z * list string) (ch u : Z) (em : embed) :
  ChannelSend ch u em ∈ trace (notify d db c r it e) →
  u = e.1 ∧ get_notification_channel db u = Some ch ∧ ch ≠ 0
  ∧ get_channel d ch = true.
Proof.
  destruct c as [[[k i] p] url]. destruct e as [uid tl]. unfold notify.
  destruct (decide (k ∈ tl)) as [Hin | Hin]; [| by intros ?%elem_of_nil].
  intros [H | (_ & _ & H)]%bind_trace_incl.
  - apply deliver_send in H as (? & -> & ? & ?). done.
  - destruct (buy_price i (get_buylist db uid) k p) as [q|];
      [| by apply elem_of_nil in H].
    unfold auto_purchase in H.
    apply bind_trace_incl in H as [H | (_ & _ & H)].
    + by apply list_elem_of_singleton in H.
    + apply deliver_send in H as (? & -> & ? & ?). done.
Qed.

Lemma check_stock_task_send (d : discord) (s : state) (ch u : Z) (em : embed) :
  ChannelSend ch u em ∈ trace (check_stock_task d s).1 →
  get_notification_channel (db (check_stock_task d s).2) u = Some ch
  ∧ ch ≠ 0 ∧ get_channel d ch = true.
Proof.
  rewrite check_stock_task_unfold. cbn [fst snd].
  destruct (poll s).1 as [c|]; [| by intros ?%elem_of_nil].
  unfold tell. rewrite try_except_trace. intros Ha.
  assert (Hf : ChannelSend ch u em ∈ trace (fan_out d (db (poll s).2) c)).
  { destruct (raised _); [| done].
    apply elem_of_app in Ha as [Ha | Ha%list_elem_of_singleton]; done. }
  unfold fan_out in Hf.
  destruct (split_colon c.1.1.1) as [[r it]|]; [| by apply elem_of_nil in Hf].
  apply for_each_incl in Hf as (e & _ & Hf). apply notify_send in Hf. tauto.
Qed.










End TickFacts.

(** ** [_make_request] *)

Module RequestFacts.
Import Random BaseRetailer RandomFacts.



(** The wait of a rate-limited attempt: the doubled delay and a jitter
    in [0, 1). *)
Lemma backoff_rate_limited (delay : Q) (attempt : nat) (g : rng) :
  ∃ j, (0 <= j)%Q ∧ (j < 1)%Q
       ∧ ((backoff delay attempt 0 1 g).1 == delay * pow2 attempt + j)%Q.
Proof.
  unfold backoff, uniform. pose proof (random_range g) as [H0 H1].
  destruct (random g) as [u g']. simpl in *.
  exists u. split; [done |]. split; [done |]. ring.
Qed.

Lemma attempt_once_rate_limited (self : t) (delay : Q) (attempt retries : nat)
    (body : string) (g : rng) :
  attempt_once self GET delay attempt retries (Status 429 body) g
  = let (w, g') := backoff delay attempt 0 1 g in
    ([Request GET; Log WARNING (RateLimited w); Sleep w;
      Sleep (request_delay self)], Continue, g').
Proof.
  unfold attempt_once, handle_get. simpl.
  by destruct (backoff delay attempt 0 1 g).
Qed.

Lemma requests_app (t t' : list action) :
  requests (t ++ t') = (requests t + requests t')%nat.
Proof. unfold requests. by rewrite List.filter_app, length_app. Qed.

Lemma rate_limit_waits_app (t t' : list action) :
  rate_limit_waits (t ++ t') = rate_limit_waits t ++ rate_limit_waits t'.
Proof.
  induction t as [|a t IH]; [done |].
  destruct a as [| | l m | | | | | | | | |]; simpl; try done.
  destruct l; try done. destruct m; try done. by rewrite IH.
Qed.

Section RateLimited.
Context (self : t) (delay : Q) (retries : nat) (server : nat → exchange).
Hypothesis always_429 : ∀ i, ∃ body, server i = Status 429 body.

(** The passes of the loop against a server that always answers 429. *)
Lemma attempt_loop_rate_limited (n attempt : nat) (g : rng) :
  let '(t, r, _) := attempt_loop self GET delay retries server attempt n g in
  r = None
  ∧ requests t = n
  ∧ last t = Some (Log ERROR (AllAttemptsFailed retries))
  ∧ length (rate_limit_waits t) = n
  ∧ ∀ k w, rate_limit_waits t !! k = Some w →
      ∃ j, (0 <= j)%Q ∧ (j < 1)%Q ∧ (w == delay * pow2 (attempt + k) + j)%Q.
Proof.
  revert attempt g. induction n as [|n IH]; intros attempt g.
  - simpl. repeat split; try done; intros k w Hk; by rewrite lookup_nil in Hk.
  - simpl. destruct (always_429 attempt) as [body ->].
    rewrite attempt_once_rate_limited.
    pose proof (backoff_rate_limited delay attempt g) as Hw.
    destruct (backoff delay attempt 0 1 g) as [w g1]. simpl in Hw.
    specialize (IH (S attempt) g1).
    destruct (attempt_loop self GET delay retries server (S attempt) n g1)
      as [[t' r] g2].
    destruct IH as (-> & Hreq & Hlast & Hlen & Hwaits).
    split; [done |]. split; [| split; [| split]].
    + rewrite requests_app. unfold requests at 1. simpl. by rewrite Hreq.
    + by rewrite last_app, Hlast.
    + rewrite rate_limit_waits_app. simpl. by rewrite Hlen.
    + rewrite rate_limit_waits_app. simpl. intros [|k] w'.
      * simpl. intros [= <-]. by rewrite Nat.add_0_r.
      * simpl. intros Hk. destruct (Hwaits k w' Hk) as (j & H0 & H1 & Hj).
        exists j. repeat split; try done.
        by replace (attempt + S k)%nat with (S attempt + k)%nat by lia.
Qed.
End RateLimited.


Lemma initialize_cases (self : t) :
  request_delay (initialize self).2 = request_delay self
  ∧ ((initialize self).1 = [] ∨ (initialize self).1 = [Log INFO SessionInitialized]).
Proof.
  unfold initialize. destruct (_session_initialized self); simpl; auto.
Qed.




End RequestFacts.

(** ** The notification loop and [buy_command] *)

Module CogFacts.
Import PyStr Eff RetailerCog.

(** One pass sends at most once, logs once, and always ends the same
    way. *)
Lemma process_one_cases (d : discord) (user_id : Z) (message : string) :
  process_one d (user_id, message)
  = (if get_user d user_id then
       [UserSend user_id message;
        Log (match user_send d user_id message with
             | Delivered => INFO
             | _ => ERROR
             end)
            (match user_send d user_id message with
             | Delivered => NotificationSent user_id
             | DiscordServerError => ServerErrorSending user_id
             | Forbidden => ForbiddenSending user_id
             | OtherError => ErrorSending user_id
             end)]
     else [Log WARNING (UserNotFound user_id)])
    ++ [TaskDone; Sleep 1].
Proof.
  unfold process_one. destruct (get_user d user_id); [| done].
  by destruct (user_send d user_id message).
Qed.

Lemma process_one_sends (d : discord) (m : Z * string) :
  (sends (process_one d m) ≤ 1)%nat.
Proof.
  destruct m as [user_id message]. rewrite process_one_cases.
  destruct (get_user d user_id); cbn; lia.
Qed.

Lemma process_notifications_open (d : discord) (closed : nat → bool)
    (queue : list (Z * string)) (pass : nat) :
  (∀ i, (i < length queue)%nat → closed (pass + i)%nat = false) →
  _process_notifications d closed pass queue
  = (concat (process_one d <$> queue), []).
Proof.
  revert pass. induction queue as [|m queue IH]; intros pass Hopen; [done |].
  simpl. rewrite <- (Nat.add_0_r pass) at 1.
  rewrite Hopen by (simpl; lia).
  rewrite IH; [done |].
  intros i Hi. replace (S pass + i)%nat with (pass + S i)%nat by lia.
  apply Hopen. simpl. lia.
Qed.

(** C8, as the code has it. While the bot is open every queued message is
    taken up in order, each in one pass, and a pass sends at most once:
    a message whose delivery fails is never sent again. A recipient that
    is not found is logged as a warning and nothing is sent; a forbidden
    send, a Discord server error and any other error are logged as
    errors; in every case the pass marks the message done and sleeps one
    second, and the loop goes on to the next message. *)
Theorem failed_delivery_is_dropped (d : discord) (closed : nat → bool)
    (queue : list (Z * string)) (user_id : Z) (message : string) :
  (∀ i, (i < length queue)%nat → closed i = false) →
  _process_notifications d closed 0 queue
  = (concat (process_one d <$> queue), [])
  ∧ (sends (process_one d (user_id, message)) ≤ 1)%nat
  ∧ (get_user d user_id = false →
     process_one d (user_id, message)
     = [Log WARNING (UserNotFound user_id); TaskDone; Sleep 1])
  ∧ (get_user d user_id = true →
     process_one d (user_id, message)
     = [UserSend user_id message;
        match user_send d user_id message with
        | Delivered => Log INFO (NotificationSent user_id)
        | DiscordServerError => Log ERROR (ServerErrorSending user_id)
        | Forbidden => Log ERROR (ForbiddenSending user_id)
        | OtherError => Log ERROR (ErrorSending user_id)
        end;
        TaskDone; Sleep 1]).
Proof.
  intros Hopen. split; [| split; [| split]].
  - by apply process_notifications_open.
  - apply process_one_sends.
  - intros Hu. unfold process_one. by rewrite Hu.
  - intros Hu. unfold process_one. rewrite Hu.
    by destruct (user_send d user_id message).
Qed.




End CogFacts.

(** ** Buying *)

Module PurchaseFacts.
Import PyStr Random RetailerDatabase PokemonTracker Eff.
Import TrackingFacts TickFacts CogFacts.




End PurchaseFacts.

(** ** The properties on concrete inputs *)

Module Checks.
Import PyStr Random RetailerDatabase PokemonTracker Eff Invariant Demo.
Import DatabaseFacts TrackingFacts TickFacts RequestFacts CogFacts PurchaseFacts.


Example wired_run :
  trace (check_stock_task delivering wired).1
  = [ChannelSend 7 1 (StockAlert "Celebrations Tin" "Target" true
                        (Some (4999 # 100)%Q) tin_url);
     AutoPurchase 1 tin (4999 # 100);
     ChannelSend 7 1 (AutoPurchaseSuccessful "Celebrations Tin" "Target"
                        (4999 # 100))].
Proof. vm_compute. reflexivity. Qed.

Example failing_run :
  check_stock_task failing wired
  = (([Log ERROR StockTaskError], Returned tt), (check_stock_task failing wired).2)
  ∧ check_stock (db (check_stock_task failing wired).2) tin
    = (true, Some (4999 # 100)%Q, tin_url).
Proof. split; vm_compute; reflexivity. Qed.

Lemma at_most_one_purchase_per_crossing_witness :
  attempts 1 tin (trace (check_stock_task delivering wired).1) = 1%nat
  ∧ attempts 1 tin
      (trace (check_stock_task failing (check_stock_task delivering wired).2).1)
    = 0%nat.
Proof.
  assert (Hone : attempts 1 tin (trace (check_stock_task delivering wired).1)
                 = 1%nat) by (vm_compute; reflexivity).
  split; [exact Hone |].
  pose proof (at_most_one_purchase_per_crossing delivering failing wired 1 tin)
    as H.
  destruct (check_stock_task delivering wired) as [m s'].
  destruct H as (_ & _ & _ & H). apply H. exact Hone.
Defined.





Lemma track_twice_tracks_once_witness :
  reachable fresh
  ∧ (track_add (track_add fresh 1 "Target" "Celebrations Tin").2 1
       "Target" "Celebrations Tin").1
    = [Respond (AlreadyTracking "Celebrations Tin" "Target")].
Proof.
  split; [apply reach_new |].
  pose proof (track_twice_tracks_once fresh 1 "Target" "Celebrations Tin"
                (reach_new (constant 0))) as H.
  cbv zeta in H.
  destruct (track_add (track_add fresh 1 "Target" "Celebrations Tin").2 1
              "Target" "Celebrations Tin") as [t2 s2].
  simpl. tauto.
Defined.


(** The run in which the send to user 1 raises: the tin, out of stock
    before it, is in stock after it. *)
Lemma failed_run_keeps_the_change :
  ¬ (raised (check_stock_body failing wired).1 = true →
     check_stock (db (check_stock_task failing wired).2) tin
     = check_stock (db wired) tin).
Proof.
  intros H. specialize (H eq_refl). vm_compute in H. discriminate.
Qed.

Lemma failed_delivery_is_dropped_witness :
  (∀ i, (i < length [(7, "restock"%string)])%nat → never_closed i = false)
  ∧ RetailerCog._process_notifications forbidding never_closed 0
      [(7, "restock"%string)]
    = (concat (RetailerCog.process_one forbidding <$> [(7, "restock"%string)]), []).
Proof.
  assert (Ho : ∀ i, (i < length [(7, "restock"%string)])%nat
                    → never_closed i = false) by reflexivity.
  split; [exact Ho |].
  apply (failed_delivery_is_dropped forbidding never_closed
           [(7, "restock"%string)] 7 "restock" Ho).
Defined.

(** C8 fails as stated: a forbidden send is logged as an error, and no
    warning is logged. *)
Lemma forbidden_is_logged_as_error :
  ¬ (RetailerCog.user_send forbidding 7 "restock" = RetailerCog.Forbidden →
     ∃ line, Log WARNING line
             ∈ RetailerCog.process_one forbidding (7, "restock"%string)).
Proof.
  intros H. destruct (H eq_refl) as [line Hin].
  assert (E : RetailerCog.process_one forbidding (7, "restock"%string)
              = [UserSend 7 "restock"; Log ERROR (ForbiddenSending 7);
                 TaskDone; Sleep 1]) by reflexivity.
  rewrite E in Hin.
  repeat (apply elem_of_cons in Hin as [Hin | Hin]; [discriminate Hin |]).
  by apply elem_of_nil in Hin.
Qed.

End Checks.

(** ** The keyword tests and [clean_product_name] *)

Module KeywordFacts.
Import PyText Keywords UtilityFacts.

Lemma starts_with_spec (needle hay : text) :
  starts_with needle hay = true ↔ ∃ post, hay = needle ++ post.
Proof.
  revert hay. induction needle as [|x needle IH]; intros hay; simpl.
  - split; [intros _; by exists hay | done].
  - destruct hay as [|y hay].
    + split; [done | intros [post H]; done].
    + rewrite andb_true_iff, N.eqb_eq, IH. split.
      * intros [-> [post ->]]. by exists post.
      * intros [post [= -> ->]]. split; [done | by exists post].
Qed.

(** [needle in hay] holds exactly when [hay] has [needle] as a run of
    consecutive characters. *)
Lemma contains_spec (needle hay : text) :
  contains needle hay = true ↔ ∃ pre post, hay = pre ++ needle ++ post.
Proof.
  induction hay as [|c hay IH]; simpl.
  - rewrite starts_with_spec. split.
    + intros [post H]. exists [], post. done.
    + intros (pre & post & H). destruct pre; [by exists post |]. done.
  - rewrite orb_true_iff, IH, starts_with_spec. split.
    + intros [[post H] | (pre & post & ->)].
      * exists [], post. done.
      * exists (c :: pre), post. done.
    + intros (pre & post & H). destruct pre as [|c' pre].
      * left. by exists post.
      * right. injection H as -> ->. by exists pre, post.
Qed.

Lemma contains_longer (a b c hay : text) :
  contains (a ++ b ++ c) hay = true → contains b hay = true.
Proof.
  rewrite !contains_spec. intros (pre & post & ->).
  exists (pre ++ a), (c ++ post). by rewrite <- !app_assoc.
Qed.

(** X1. The text [unavailable] holds the keyword [available]: whatever
    [is_out_of_stock_keyword] accepts for it, [is_in_stock_keyword]
    accepts too. *)
Theorem unavailable_counts_as_in_stock (py_lower : text → text) (s : text) :
  s ≠ [] →
  contains (of_ascii "unavailable") (py_lower s) = true →
  is_out_of_stock_keyword py_lower (Some s) = true
  ∧ is_in_stock_keyword py_lower (Some s) = true.
Proof.
  intros Hs Hun. destruct s as [|c s]; [done |].
  unfold is_out_of_stock_keyword, is_in_stock_keyword, any_keyword.
  split.
  - unfold out_of_stock_keywords. simpl existsb. rewrite Hun.
    by rewrite orb_true_r.
  - unfold in_stock_keywords. simpl existsb.
    assert (Hav : contains (of_ascii "available") (py_lower (c :: s)) = true).
    { apply (contains_longer (of_ascii "un") _ []).
      by rewrite app_nil_r. }
    rewrite Hav. by rewrite orb_true_r.
Qed.

Lemma lstrip_fixed (s : text) :
  (∀ c, head s = Some c → is_space c = false) → lstrip s = s.
Proof.
  destruct s as [|x s]; [done |]. intros H. simpl.
  by rewrite (H x eq_refl).
Qed.

Lemma rstrip_fixed (s : text) :
  (∀ c, last s = Some c → is_space c = false) → rstrip s = s.
Proof.
  intros H. unfold rstrip. rewrite lstrip_fixed.
  - apply reverse_involutive.
  - intros c. rewrite head_reverse. apply H.
Qed.

Lemma strip_fixed (s : text) :
  (∀ c, head s = Some c ∨ last s = Some c → is_space c = false) →
  strip s = s.
Proof.
  intros H. unfold strip. rewrite lstrip_fixed by (intros c ?; apply H; auto).
  apply rstrip_fixed. intros c ?. apply H. auto.
Qed.

(** X2. [clean_product_name] returns [None] for [None] and for the empty
    name only; a cleaned name neither starts nor ends with whitespace, and
    cleaning it again gives it back, unless it is empty (the name was all
    whitespace), where the second cleaning gives [None]. *)
Theorem clean_product_name_again (name : option text) (s : text) :
  (clean_product_name name = None ↔ name = None ∨ name = Some [])
  ∧ (clean_product_name name = Some s →
     (∀ c, head s = Some c ∨ last s = Some c → is_space c = false)
     ∧ clean_product_name (Some s)
       = match s with [] => None | _ => Some s end).
Proof.
  split.
  - destruct name as [[|c n]|]; simpl; split; try done; auto.
    + intros [H | H]; done.
  - destruct name as [[|c n]|]; simpl; try done.
    intros [= <-].
    assert (Hends : ∀ c0, head (strip (c :: n)) = Some c0
                          ∨ last (strip (c :: n)) = Some c0
                          → is_space c0 = false)
      by (intros c0; apply strip_ends).
    split; [exact Hends |].
    destruct (strip (c :: n)) as [|x t] eqn:E; [done |].
    simpl. by rewrite strip_fixed.
Qed.

End KeywordFacts.

(** ** The registry: tracking lists, buylists and channels *)

Module RegistryFacts.
Import PyStr Random RetailerDatabase PokemonTracker Invariant.
Import DatabaseFacts TrackingFacts.

Lemma list_remove_snoc (k : string) (l : list string) :
  k ∉ l → list_remove k (l ++ [k]) = l.
Proof.
  induction l as [|x l IH]; simpl.
  - intros _. by rewrite decide_True.
  - intros [Hne Hl]%not_elem_of_cons.
    rewrite decide_False by done. by rewrite IH.
Qed.

Lemma list_remove_filter (k : string) (l : list string) :
  NoDup l → list_remove k l = filter (λ x, x ≠ k) l.
Proof.
  induction 1 as [|x l Hx Hl IH]; [done |]. simpl.
  destruct (decide (k = x)) as [-> | Hne].
  - rewrite filter_cons_False by tauto.
    symmetry. clear IH Hl. induction l as [|y l IH]; [done |].
    apply not_elem_of_cons in Hx as [Hxy Hx].
    rewrite filter_cons_True by congruence. by rewrite IH.
  - rewrite filter_cons_True by congruence. by rewrite IH.
Qed.

(** X3. Tracking a product that is not tracked and removing it again gives
    the user the tracking list they had; the removal returns [True], and
    nothing else of the database changes. *)
Theorem untrack_undoes_track (db : RetailerDatabase.t) (u u' : Z) (k : string) :
  k ∉ get_tracking_list db u →
  let db1 := (add_to_tracking db u k).1 in
  let '(db2, removed) := remove_from_tracking db1 u k in
  removed = true
  ∧ get_tracking_list db2 u = get_tracking_list db u
  ∧ (u' ≠ u → get_tracking_list db2 u' = get_tracking_list db u')
  ∧ user_buylists db2 = user_buylists db
  ∧ user_channels db2 = user_channels db
  ∧ stock_status db2 = stock_status db.
Proof.
  intros Hk db1. subst db1.
  pose proof (add_to_tracking_spec db u k) as H. cbv zeta in H.
  destruct (add_to_tracking db u k) as [db1 added]. cbn [fst].
  destruct H as (Hu & _ & Hother & Hb & Hc & Hs).
  rewrite decide_False in Hu by done.
  unfold remove_from_tracking. rewrite Hu.
  rewrite decide_True by (apply elem_of_app; right; by left).
  unfold get_tracking_list at 1 3. cbn [user_tracking user_buylists
    user_channels stock_status].
  rewrite lookup_insert_eq. cbn [default].
  rewrite list_remove_snoc by done.
  repeat split; try done.
  intros Hne. unfold get_tracking_list. cbn [user_tracking].
  rewrite lookup_insert_ne by done. by rewrite Hother.
Qed.

(** X4. In every state the cog reaches, removing a product from a tracking
    list returns whether it was there, leaves the list without it and
    with its other products in their order; removing a product that is
    not tracked changes nothing. *)
Theorem untrack_removes_the_product (s : state) (u : Z) (k : string) :
  reachable s →
  let l := get_tracking_list (db s) u in
  let '(db', removed) := remove_from_tracking (db s) u k in
  removed = bool_decide (k ∈ l)
  ∧ get_tracking_list db' u = filter (λ x, x ≠ k) l
  ∧ (k ∉ get_tracking_list db' u)
  ∧ (k ∉ l → db' = db s).
Proof.
  intros Hs l. subst l.
  pose proof (reachable_tracking_nodup s Hs u) as Hnd.
  unfold remove_from_tracking, get_tracking_list in *.
  destruct (user_tracking (db s) !! u) as [l|] eqn:Hu; cbn [default].
  - specialize (Hnd l eq_refl).
    destruct (decide (k ∈ l)) as [Hin | Hin].
    + rewrite bool_decide_eq_true_2 by done.
      cbn [user_tracking]. rewrite lookup_insert_eq. cbn [default].
      rewrite list_remove_filter by done. unfold id.
      split; [done |]. split; [done |]. split; [| done].
      rewrite list_elem_of_filter. tauto.
    + rewrite bool_decide_eq_false_2 by done. rewrite Hu. cbn [default].
      unfold id. repeat split; try done.
      symmetry. clear Hnd Hu. induction l as [|x l IH]; [done |].
      apply not_elem_of_cons in Hin as [Hne Hin].
      rewrite filter_cons_True by congruence. by rewrite IH.
  - rewrite Hu. cbn [default]. unfold id.
    rewrite bool_decide_eq_false_2 by apply not_elem_of_nil.
    repeat split; try done. apply not_elem_of_nil.
Qed.

Lemma get_buylist_add (db : RetailerDatabase.t) (u u' : Z) (k : string) (T : Q) :
  get_buylist (add_to_buylist db u k T).1 u'
  = if decide (u' = u) then <[k := T]> (get_buylist db u) else get_buylist db u'.
Proof.
  unfold add_to_buylist, get_buylist. cbn [fst user_buylists].
  rewrite lookup_insert. destruct (decide (u = u')) as [-> | Hne].
  - by rewrite decide_True.
  - by rewrite decide_False.
Qed.

Lemma remove_from_buylist_spec (db : RetailerDatabase.t) (u : Z) (k : string) :
  let '(db', removed) := remove_from_buylist db u k in
  removed = bool_decide (is_Some (get_buylist db u !! k))
  ∧ (removed = false → db' = db)
  ∧ ∀ u', get_buylist db' u'
         = if decide (u' = u) then delete k (get_buylist db u)
           else get_buylist db u'.
Proof.
  unfold remove_from_buylist, get_buylist.
  destruct (user_buylists db !! u) as [b|] eqn:Hu; cbn [default].
  - unfold id. destruct (b !! k) as [T|] eqn:Hk.
    + rewrite bool_decide_eq_true_2 by eauto.
      split; [done |]. split; [done |]. intros u'. cbn [user_buylists].
      rewrite lookup_insert. destruct (decide (u = u')) as [-> | Hne].
      * by rewrite decide_True.
      * by rewrite decide_False.
    + rewrite bool_decide_eq_false_2 by (by intros [? ?]).
      split; [done |]. split; [done |]. intros u'.
      case_decide as Hu'; [| done]. subst u'. rewrite Hu. cbn [default].
      unfold id. by rewrite delete_id.
  - rewrite lookup_empty.
    rewrite bool_decide_eq_false_2 by (by intros [? ?]).
    split; [done |]. split; [done |]. intros u'.
    case_decide as Hu'; [| done]. subst u'. rewrite Hu. cbn [default].
    by rewrite delete_empty.
Qed.

(** X5. The last threshold set for a product is the one the buylist holds,
    the thresholds of other products and the buylists of other users stay
    as they were; removing the product returns [True] and takes it off
    the buylist, and removing it once more returns [False] and changes
    nothing. *)
Theorem buylist_last_threshold_wins (db : RetailerDatabase.t) (u u' : Z)
    (k k' : string) (T1 T2 : Q) :
  let db2 := (add_to_buylist (add_to_buylist db u k T1).1 u k T2).1 in
  get_buylist db2 u !! k = Some T2
  ∧ (k' ≠ k → get_buylist db2 u !! k' = get_buylist db u !! k')
  ∧ (u' ≠ u → get_buylist db2 u' = get_buylist db u')
  ∧ let '(db3, removed) := remove_from_buylist db2 u k in
    removed = true
    ∧ get_buylist db3 u !! k = None
    ∧ (k' ≠ k → get_buylist db3 u !! k' = get_buylist db u !! k')
    ∧ remove_from_buylist db3 u k = (db3, false).
Proof.
  intros db2.
  assert (H2 : ∀ v, get_buylist db2 v
                = if decide (v = u) then <[k := T2]> (<[k := T1]> (get_buylist db u))
                  else get_buylist db v).
  { intros v. subst db2. rewrite get_buylist_add.
    case_decide as Hv; [| by rewrite get_buylist_add, decide_False].
    by rewrite get_buylist_add, decide_True. }
  split; [| split; [| split]].
  - rewrite H2, decide_True by done. apply lookup_insert_eq.
  - intros Hne. rewrite H2, decide_True by done.
    by rewrite !lookup_insert_ne.
  - intros Hne. by rewrite H2, decide_False.
  - pose proof (remove_from_buylist_spec db2 u k) as H3.
    destruct (remove_from_buylist db2 u k) as [db3 removed].
    destruct H3 as (Hr & _ & H3).
    assert (Hk3 : get_buylist db3 u !! k = None).
    { rewrite H3, decide_True by done. apply lookup_delete_eq. }
    split; [| split; [done | split]].
    + rewrite Hr. apply bool_decide_eq_true_2.
      rewrite H2, decide_True by done. rewrite lookup_insert_eq. eauto.
    + intros Hne. rewrite H3, decide_True by done.
      rewrite lookup_delete_ne by done.
      rewrite H2, decide_True by done. by rewrite !lookup_insert_ne.
    + pose proof (remove_from_buylist_spec db3 u k) as H4.
      destruct (remove_from_buylist db3 u k) as [db4 removed4].
      destruct H4 as (Hr4 & Hsame & _).
      assert (removed4 = false) as ->.
      { rewrite Hr4. apply bool_decide_eq_false_2. rewrite Hk3. by intros [? ?]. }
      by rewrite Hsame.
Qed.

Lemma poll_frame (s : state) :
  user_tracking (db (poll s).2) = user_tracking (db s)
  ∧ user_buylists (db (poll s).2) = user_buylists (db s)
  ∧ user_channels (db (poll s).2) = user_channels (db s).
Proof.
  destruct (poll_db s) as [-> | [g ->]]; [done |].
  pose proof (simulate_stock_change_spec (db s) g) as H.
  destruct (simulate_stock_change (db s) g) as [[res db'] g']. simpl. tauto.
Qed.

End RegistryFacts.

(** ** Who a run of [check_stock_task] reaches *)

Module FanOutFacts.
Import PyStr Random RetailerDatabase PokemonTracker Invariant.
Import DatabaseFacts TrackingFacts Eff EffFacts TickFacts RegistryFacts.

Lemma notify_only_tracking (d : discord) (db : RetailerDatabase.t) (k : string)
    (i : bool) (p : option Q) (url : option string) (r it : string)
    (uid : Z) (tl : list string) (a : action) :
  a ∈ trace (notify d db (k, i, p, url) r it (uid, tl)) →
  k ∈ tl ∧ ((∃ c e, a = ChannelSend c uid e) ∨ ∃ q, a = AutoPurchase uid k q).
Proof.
  destruct (notify_cases d db k i p url r it uid tl)
    as [[_ ->] | [(Hin & _ & H) | [(Hin & _ & _ & H) | (Hin & q & t & t' & _ & -> & H)]]].
  - by intros ?%elem_of_nil.
  - intros Ha. split; [done |]. left. by apply H.
  - intros Ha. split; [done |]. left. by apply H.
  - rewrite elem_of_app, elem_of_cons. intros [Ha | [-> | Ha]].
    + split; [done |]. left. apply H. apply elem_of_app. by left.
    + split; [done |]. right. by exists q.
    + split; [done |]. left. apply H. apply elem_of_app. by right.
Qed.

Lemma tracking_list_lookup (db : RetailerDatabase.t) (u : Z) (k : string) :
  k ∈ get_tracking_list db u →
  ∃ tl, user_tracking db !! u = Some tl ∧ k ∈ tl.
Proof.
  unfold get_tracking_list.
  destruct (user_tracking db !! u) as [tl|]; [eauto |].
  by intros ?%elem_of_nil.
Qed.

(** X6. A run tells nothing to a user who does not track the product that
    changed, and buys nothing for them, whatever their buylist holds. *)
Theorem untracked_product_is_silent (d : discord) (s : state) (u : Z)
    (k : string) (i : bool) (p : option Q) (url : option string) (a : action) :
  (poll s).1 = Some (k, i, p, url) →
  k ∉ get_tracking_list (db s) u →
  a ∈ trace (check_stock_task d s).1 →
  (∀ c e, a ≠ ChannelSend c u e) ∧ (∀ k' q, a ≠ AutoPurchase u k' q).
Proof.
  intros He Hk. rewrite check_stock_task_unfold, He. cbn [fst].
  unfold tell. rewrite try_except_trace. intros Ha.
  assert (Hcases : a = Log ERROR StockTaskError
                   ∨ a ∈ trace (fan_out d (db (poll s).2) (k, i, p, url))).
  { destruct (raised _); [| by right].
    apply elem_of_app in Ha as [Ha | Ha%list_elem_of_singleton]; auto. }
  destruct Hcases as [-> | Hf]; [done |].
  unfold fan_out in Hf. cbn [fst] in Hf.
  destruct (split_colon k) as [[r it]|]; [| by apply elem_of_nil in Hf].
  apply for_each_incl in Hf as ([uid tl] & He' & Hn).
  apply notify_only_tracking in Hn as [Hin Hn].
  apply elem_of_map_to_list in He'.
  destruct (poll_frame s) as (Ht & _). rewrite Ht in He'.
  assert (Hne : uid ≠ u).
  { intros ->. apply Hk. unfold get_tracking_list. by rewrite He'. }
  destruct Hn as [(c & e & ->) | (q & ->)]; split; congruence.
Qed.

Lemma bind_trace_left {A B} (m : eff A) (f : A → eff B) (a : action) :
  a ∈ trace m → a ∈ trace (bind m f).
Proof.
  destruct m as [t [x|]]; simpl; [| done].
  destruct (f x) as [t' r]. simpl. intros H. apply elem_of_app. by left.
Qed.

(** X7. In a run in which no send raises, every user who tracks the product
    that changed and whose notification channel is found is sent the
    stock alert of the change in that channel. *)
Theorem tracking_user_is_alerted (d : discord) (s : state) (u c : Z)
    (k : string) (i : bool) (p : option Q) (url : option string) :
  (poll s).1 = Some (k, i, p, url) →
  k ∈ get_tracking_list (db s) u →
  get_notification_channel (db s) u = Some c → c ≠ 0 →
  get_channel d c = true →
  Log ERROR StockTaskError ∉ trace (check_stock_task d s).1 →
  ∃ retailer item,
    split_colon k = Some (retailer, item)
    ∧ ChannelSend c u (StockAlert item retailer i p url)
      ∈ trace (check_stock_task d s).1.
Proof.
  intros He Hk Hc Hc0 Hg. rewrite check_stock_task_unfold, He. cbn [fst].
  unfold tell. rewrite try_except_trace. intros Hlog.
  destruct (raised (fan_out d (db (poll s).2) (k, i, p, url))) eqn:Hr.
  { exfalso. apply Hlog. apply elem_of_app. right. by left. }
  unfold fan_out in *. cbn [fst] in *.
  destruct (split_colon k) as [[r it]|]; [| done].
  exists r, it. split; [done |].
  apply for_each_returned in Hr as [-> Hr].
  apply tracking_list_lookup in Hk as (tl & Hu & Hin).
  destruct (poll_frame s) as (Ht & _ & Hch).
  rewrite <- Ht in Hu. apply elem_of_map_to_list in Hu.
  specialize (Hr _ Hu).
  apply list_elem_of_In, List.in_concat.
  exists (trace (notify d (db (poll s).2) (k, i, p, url) r it (u, tl))).
  split; [apply list_elem_of_In, list_elem_of_fmap; by exists (u, tl) |].
  apply list_elem_of_In. revert Hr. unfold notify.
  rewrite decide_True by done.
  unfold get_notification_channel. rewrite Hch.
  unfold get_notification_channel in Hc. rewrite Hc.
  assert (Hd : deliver d (Some c) u (StockAlert it r i p url)
               = if channel_send d c u (StockAlert it r i p url)
                 then ([ChannelSend c u (StockAlert it r i p url)], Returned tt)
                 else ([], Raised)).
  { unfold deliver. rewrite decide_False by done. by rewrite Hg. }
  rewrite Hd.
  destruct (channel_send d c u (StockAlert it r i p url)).
  - intros _. apply bind_trace_left. by left.
  - intros Hr. discriminate Hr.
Qed.

(** X8. A run changes no tracking list, buylist or channel, and the state of
    at most one product. *)
Theorem run_keeps_subscriptions (d : discord) (s : state) :
  let s' := (check_stock_task d s).2 in
  user_tracking (db s') = user_tracking (db s)
  ∧ user_buylists (db s') = user_buylists (db s)
  ∧ user_channels (db s') = user_channels (db s)
  ∧ ∃ k, ∀ k', k' ≠ k →
      stock_status (db s') !! k' = stock_status (db s) !! k'.
Proof.
  intros s'. subst s'. rewrite check_stock_task_state.
  destruct (poll_frame s) as (Ht & Hb & Hc).
  split; [done |]. split; [done |]. split; [done |].
  destruct (poll_db s) as [-> | [g ->]]; [by exists ""%string |].
  pose proof (simulate_stock_change_spec (db s) g) as H.
  destruct (simulate_stock_change (db s) g) as [[res db'] g']. cbn [fst snd].
  destruct H as (_ & _ & _ & H).
  destruct res as [[[[k i] p] u]|].
  - destruct H as (_ & -> & _). exists k. intros k' Hne.
    by rewrite lookup_insert_ne.
  - destruct H as [-> _]. by exists ""%string.
Qed.

(** X9. Once a user has set a channel, every message a run sends to that user
    goes to the channel set last. *)
Theorem alerts_follow_the_last_channel (d : discord) (s : state)
    (u c0 c ch : Z) (e : embed) :
  let db1 := (set_notification_channel (db s) u c0).1 in
  let s2 := {| db := (set_notification_channel db1 u c).1; rand := rand s |} in
  get_notification_channel (db s2) u = Some c
  ∧ (ChannelSend ch u e ∈ trace (check_stock_task d s2).1 → ch = c).
Proof.
  intros db1 s2.
  assert (Hc : get_notification_channel (db s2) u = Some c).
  { unfold get_notification_channel. subst s2 db1. cbn.
    apply lookup_insert_eq. }
  split; [exact Hc |].
  intros (Hsend & _)%check_stock_task_send.
  rewrite check_stock_task_state in Hsend.
  destruct (poll_frame s2) as (_ & _ & Hch).
  unfold get_notification_channel in *. rewrite Hch in Hsend. congruence.
Qed.

End FanOutFacts.

(** ** The products that have a stock entry *)

Module CatalogFacts.
Import PyStr Random RetailerDatabase PokemonTracker Invariant Catalog.
Import DatabaseFacts TrackingFacts.

Lemma initialize_products_keys (retailer : string) (products : list string)
    (stock : gmap string stock_entry) (g : rng) (k : string) :
  is_Some ((initialize_products retailer products stock g).1 !! k)
  ↔ is_Some (stock !! k) ∨ k ∈ product_key retailer <$> products.
Proof.
  revert stock g. induction products as [|p ps IH]; intros stock g.
  - simpl. rewrite elem_of_nil. split; [by left | by intros [? | []]].
  - simpl. unfold sample_entry. destruct (random g) as [r g1].
    destruct (sample_price (negb (Qle_bool r (7 # 10))) g1) as [price g2].
    rewrite IH, lookup_insert_is_Some, elem_of_cons. split.
    + intros [[<- | [_ H]] | H].
      * right. by left.
      * by left.
      * right. by right.
    + intros [H | [-> | H]].
      * left. destruct (decide (product_key retailer p = k)); [by left | by right].
      * left. by left.
      * by right.
Qed.

Lemma initialize_retailers_keys (table : list (string * list string))
    (stock : gmap string stock_entry) (g : rng) (k : string) :
  is_Some ((initialize_retailers table stock g).1 !! k)
  ↔ is_Some (stock !! k) ∨ k ∈ table ≫= λ rp, product_key rp.1 <$> rp.2.
Proof.
  revert stock g. induction table as [|[r ps] rest IH]; intros stock g.
  - simpl. rewrite elem_of_nil. split; [by left | by intros [? | []]].
  - rewrite bind_cons, elem_of_app. cbn [initialize_retailers fst snd].
    pose proof (initialize_products_keys r ps stock g k) as H.
    destruct (initialize_products r ps stock g) as [stock' g'].
    cbn [fst] in H. rewrite IH, H.
    split; [intros [[? | ?] | ?] | intros [? | [? | ?]]]; auto.
Qed.

Lemma init_keys (g : rng) (k : string) :
  is_Some (stock_status (init g).1 !! k) ↔ k ∈ listed_keys.
Proof.
  unfold init, _initialize_sample_stock, listed_keys.
  pose proof (initialize_retailers_keys products_by_retailer ∅ g k) as H.
  destruct (initialize_retailers products_by_retailer ∅ g) as [stock g'].
  simpl in *. rewrite H, lookup_empty. split; [| by right].
  intros [[? ?] | ?]; done.
Qed.

Lemma simulate_keeps_keys (db : RetailerDatabase.t) (g : rng) (k : string) :
  is_Some (stock_status (simulate_stock_change db g).1.2 !! k)
  ↔ is_Some (stock_status db !! k).
Proof.
  pose proof (simulate_stock_change_spec db g) as H.
  destruct (simulate_stock_change db g) as [[res db'] g']. cbn [fst snd].
  destruct H as (_ & _ & _ & H).
  destruct res as [[[[k0 i] p] u]|].
  - destruct H as ([p0 Hk] & -> & _). rewrite lookup_insert_is_Some.
    destruct (decide (k0 = k)) as [<- | Hne].
    + rewrite Hk. split; eauto.
    + split; [intros [? | [_ ?]]; done | intros ?; by right].
  - by destruct H as [-> _].
Qed.

Lemma table_get_elem (table : list (string * list string)) (r : string)
    (p : string) :
  p ∈ table_get table r → ∃ ps, (r, ps) ∈ table ∧ p ∈ ps.
Proof.
  induction table as [|[r' ps] rest IH]; simpl; [by intros ?%elem_of_nil |].
  case_decide as Hr.
  - subst r'. intros Hp. exists ps. split; [by left | done].
  - intros Hp. destruct (IH Hp) as (ps' & Hin & Hp').
    exists ps'. split; [by right | done].
Qed.

Lemma table_get_unique (table : list (string * list string)) (r : string)
    (ps : list string) :
  NoDup table.*1 → (r, ps) ∈ table → table_get table r = ps.
Proof.
  induction table as [|[r' ps'] rest IH]; simpl; [by intros _ ?%elem_of_nil |].
  intros [Hr' Hnd]%NoDup_cons [[= -> ->] | Hin]%elem_of_cons.
  - by rewrite decide_True.
  - case_decide as Hr; [| by apply IH].
    subst r'. exfalso. apply Hr'.
    apply list_elem_of_fmap. by exists (r, ps).
Qed.

Lemma retailers_differ : NoDup products_by_retailer.*1.
Proof.
  apply (bool_decide_unpack (NoDup products_by_retailer.*1)).
  vm_compute. exact I.
Qed.

Lemma listed_keys_spec (k : string) :
  k ∈ listed_keys
  ↔ ∃ r p, p ∈ get_products_by_retailer r ∧ k = product_key r p.
Proof.
  unfold listed_keys, get_products_by_retailer.
  rewrite list_elem_of_bind. split.
  - intros ([r ps] & Hk & Hin). simpl in Hk.
    apply list_elem_of_fmap in Hk as (p & -> & Hp).
    exists r, p. split; [| done].
    by rewrite (table_get_unique _ r ps retailers_differ Hin).
  - intros (r & p & Hp & ->).
    apply table_get_elem in Hp as (ps & Hin & Hp).
    exists (r, ps). split; [| done]. simpl.
    apply list_elem_of_fmap. by exists p.
Qed.

(** X10. In every state the cog reaches, the products with a stock entry are
    the products [get_products_by_retailer] lists, each under the key its
    retailer and its name make: no command and no run adds an entry or
    takes one away. For a retailer that is not in the table,
    [get_products_by_retailer] returns the empty list. *)
Theorem stock_entries_are_the_listed_products (s : state) (k r : string) :
  reachable s →
  (is_Some (stock_status (db s) !! k)
   ↔ ∃ r p, p ∈ get_products_by_retailer r ∧ k = product_key r p)
  ∧ (r ∉ products_by_retailer.*1 → get_products_by_retailer r = []).
Proof.
  intros Hs. split.
  - rewrite <- listed_keys_spec.
    induction Hs as [g | s u r0 p _ IH | s u p _ IH | s u r0 p q _ IH
                    | s u p _ IH | s u c _ IH | s _ IH | d s _ IH | s g _ IH].
    + unfold new. pose proof (init_keys g k) as H.
      by destruct (init g) as [d g'].
    + rewrite track_add_db.
      pose proof (add_to_tracking_spec (db s) u (product_key r0 p)) as H.
      destruct (add_to_tracking (db s) u (product_key r0 p)) as [db' b].
      simpl in *. destruct H as (_ & _ & _ & _ & _ & ->). exact IH.
    + rewrite track_remove_db. unfold remove_from_tracking.
      destruct (user_tracking (db s) !! u); [case_decide |]; exact IH.
    + exact IH.
    + simpl. unfold remove_from_buylist.
      destruct (user_buylists (db s) !! u) as [b|]; [| exact IH].
      destruct (b !! p); exact IH.
    + exact IH.
    + rewrite simulate_command_db, simulate_keeps_keys. exact IH.
    + rewrite check_stock_task_state.
      destruct (poll_db s) as [-> | [g ->]]; [exact IH |].
      rewrite simulate_keeps_keys. exact IH.
    + exact IH.
  - intros Hr. unfold get_products_by_retailer.
    destruct (table_get products_by_retailer r) as [|p ps] eqn:E; [done |].
    exfalso. apply Hr.
    destruct (table_get_elem products_by_retailer r p) as (ps' & Hin & _).
    { rewrite E. by left. }
    apply list_elem_of_fmap. by exists (r, ps').
Qed.

End CatalogFacts.

(** ** The retry loop of [BaseRetailer._make_request] *)

Module RetryFacts.
Import Random BaseRetailer Retry RequestFacts.

(** One pass of the loop: a request unless the method is unknown; the
    loop goes on exactly after a retryable answer, and otherwise returns
    the body of a successful answer or [None]. *)
Lemma attempt_once_verdict (self : t) (m : req_method) (delay : Q)
    (attempt retries : nat) (x : exchange) (g : rng) :
  let '(t, v, _) := attempt_once self m delay attempt retries x g in
  requests t = (match m with OTHER => 0 | _ => 1 end)%nat
  ∧ v = if retryable m x then Continue else Return (successful m x).
Proof.
  unfold attempt_once, handle_get, handle_post, retryable, successful, requests.
  destruct m; [| | done].
  - destruct x as [status text | | |]; try done.
    destruct (status =? 200) eqn:H200; [done |].
    destruct (status =? 404) eqn:H404; [done |].
    destruct (status =? 429) eqn:H429.
    { by destruct (backoff delay attempt 0 1 g). }
    destruct (500 <=? status) eqn:H500; [| done].
    by destruct (backoff delay attempt 1 3 g).
  - destruct x as [status text | | |]; try done.
    destruct ((status =? 200) || (status =? 201)) eqn:Hok; [done |].
    destruct (500 <=? status) eqn:H500; [| done].
    by destruct (backoff delay attempt 1 3 g).
Qed.

Section Loop.
Context (self : t) (m : req_method) (delay : Q) (retries : nat)
  (server : nat → exchange).

Lemma attempt_loop_requests (n attempt : nat) (g : rng) :
  (requests (attempt_loop self m delay retries server attempt n g).1.1
   ≤ match m with OTHER => 0 | _ => n end)%nat.
Proof.
  revert attempt g. induction n as [|n IH]; intros attempt g.
  - simpl. by destruct m.
  - simpl.
    pose proof (attempt_once_verdict self m delay attempt retries
                  (server attempt) g) as H.
    destruct (attempt_once self m delay attempt retries (server attempt) g)
      as [[t v] g1].
    destruct H as [Hreq Hv]. destruct v as [r|].
    + simpl. rewrite Hreq. destruct m; lia.
    + specialize (IH (S attempt) g1).
      destruct (attempt_loop self m delay retries server (S attempt) n g1)
        as [[t' r] g2].
      simpl in *. rewrite requests_app, Hreq. destruct m; lia.
Qed.

Lemma attempt_loop_unknown_method (n attempt : nat) (g : rng) :
  m = OTHER →
  (attempt_loop self m delay retries server attempt n g).1.2 = None
  ∧ last (attempt_loop self m delay retries server attempt n g).1.1
    = Some (Log ERROR (AllAttemptsFailed retries)).
Proof.
  intros ->. revert attempt g. induction n as [|n IH]; intros attempt g.
  - done.
  - simpl. specialize (IH (S attempt) g).
    destruct (attempt_loop self OTHER delay retries server (S attempt) n g)
      as [[t' r] g2].
    simpl in *. destruct IH as [-> Hlast]. split; [done |].
    by rewrite last_cons, Hlast.
Qed.

(** A body is returned only from a successful answer that came after
    retryable ones. *)
Lemma attempt_loop_body (n attempt : nat) (g : rng) (body : string) :
  (attempt_loop self m delay retries server attempt n g).1.2 = Some body →
  ∃ k, (attempt ≤ k < attempt + n)%nat
       ∧ successful m (server k) = Some body
       ∧ ∀ i, (attempt ≤ i < k)%nat → retryable m (server i) = true.
Proof.
  revert attempt g. induction n as [|n IH]; intros attempt g.
  - done.
  - simpl.
    pose proof (attempt_once_verdict self m delay attempt retries
                  (server attempt) g) as H.
    destruct (attempt_once self m delay attempt retries (server attempt) g)
      as [[t v] g1].
    destruct H as [_ Hv].
    destruct (retryable m (server attempt)) eqn:Hretry; subst v.
    + specialize (IH (S attempt) g1).
      destruct (attempt_loop self m delay retries server (S attempt) n g1)
        as [[t' r] g2].
      simpl in *. intros Hr. destruct (IH Hr) as (k & Hk & Hok & Hbefore).
      exists k. split; [lia |]. split; [done |].
      intros i Hi. destruct (decide (i = attempt)) as [-> | Hne]; [done |].
      apply Hbefore. lia.
    + simpl. intros Hr. exists attempt. split; [lia |]. split; [done |].
      intros i Hi. lia.
Qed.

(** After retryable answers, a successful one within the budget is
    returned, and no further request is made. *)
Lemma attempt_loop_recovers (n attempt k : nat) (g : rng) (body : string) :
  m ≠ OTHER → (attempt ≤ k < attempt + n)%nat →
  (∀ i, (attempt ≤ i < k)%nat → retryable m (server i) = true) →
  successful m (server k) = Some body →
  (attempt_loop self m delay retries server attempt n g).1.2 = Some body
  ∧ requests (attempt_loop self m delay retries server attempt n g).1.1
    = (k - attempt + 1)%nat.
Proof.
  intros Hm. revert attempt g. induction n as [|n IH]; intros attempt g Hk Hbefore Hok.
  - lia.
  - simpl.
    pose proof (attempt_once_verdict self m delay attempt retries
                  (server attempt) g) as H.
    destruct (attempt_once self m delay attempt retries (server attempt) g)
      as [[t v] g1].
    destruct H as [Hreq Hv].
    assert (Hone : requests t = 1%nat) by (rewrite Hreq; by destruct m).
    destruct (decide (k = attempt)) as [-> | Hne].
    + assert (retryable m (server attempt) = false) as Hretry.
      { unfold retryable, successful in *.
        destruct m; [| | done]; destruct (server attempt) as [status text | | |];
          try done.
        - by destruct (status =? 200).
        - by destruct ((status =? 200) || (status =? 201)). }
      rewrite Hretry in Hv. subst v. simpl. rewrite Hone.
      split; [done | lia].
    + rewrite Hbefore in Hv by lia. subst v.
      specialize (IH (S attempt) g1).
      destruct (attempt_loop self m delay retries server (S attempt) n g1)
        as [[t' r] g2].
      simpl in *. destruct IH as [-> Hreq']; [lia | | done |].
      { intros i Hi. apply Hbefore. lia. }
      split; [done |]. rewrite requests_app, Hone, Hreq'. lia.
Qed.
End Loop.

(** X11. [_make_request] never makes more requests than its budget, whatever
    the server answers; for a method that is neither GET nor POST it
    makes none, and returns [None] after logging that all the attempts
    failed. *)
Theorem requests_stay_within_the_budget (self : t) (m : req_method)
    (retries : nat) (delay : Q) (server : nat → exchange) (g : rng) :
  let '(t, r, _, _) := _make_request self m retries delay server g in
  (requests t ≤ retries)%nat
  ∧ (m = OTHER →
     requests t = 0%nat ∧ r = None
     ∧ last t = Some (Log ERROR (AllAttemptsFailed retries))).
Proof.
  unfold _make_request.
  destruct (initialize_cases self) as [_ Hinit].
  destruct (initialize self) as [t0 self']. simpl in Hinit.
  pose proof (attempt_loop_requests self' m delay retries server retries 0 g)
    as Hreq.
  pose proof (attempt_loop_unknown_method self' m delay retries server
                retries 0 g) as Hother.
  destruct (attempt_loop self' m delay retries server 0 retries g)
    as [[t r] g'].
  simpl in *.
  assert (H0 : requests (t0 ++ t) = requests t)
    by (rewrite requests_app; destruct Hinit as [-> | ->]; done).
  rewrite H0. split; [destruct m; lia |].
  intros ->. destruct (Hother eq_refl) as [-> Hlast].
  split; [lia |]. split; [done |]. by rewrite last_app, Hlast.
Qed.

(** X12. When [_make_request] returns a body, it is the text of an answer
    with status 200 (or 201 for a POST), received within the budget after
    answers that were all retryable. *)
Theorem body_comes_from_a_success (self : t) (m : req_method)
    (retries : nat) (delay : Q) (server : nat → exchange) (g : rng)
    (body : string) :
  (_make_request self m retries delay server g).1.1.2 = Some body →
  ∃ k, (k < retries)%nat
       ∧ successful m (server k) = Some body
       ∧ ∀ i, (i < k)%nat → retryable m (server i) = true.
Proof.
  unfold _make_request. destruct (initialize self) as [t0 self'].
  pose proof (attempt_loop_body self' m delay retries server retries 0 g body)
    as H.
  destruct (attempt_loop self' m delay retries server 0 retries g)
    as [[t r] g'].
  simpl in *. intros Hr. destruct (H Hr) as (k & Hk & Hok & Hbefore).
  exists k. split; [lia |]. split; [done |].
  intros i Hi. apply Hbefore. lia.
Qed.

(** X13. A GET or POST whose first [k] answers are retryable and whose next
    answer, still within the budget, is successful returns the body of
    that answer after exactly [k + 1] requests. *)
Theorem request_recovers_after_retryable_answers (self : t) (m : req_method)
    (retries k : nat) (delay : Q) (server : nat → exchange) (g : rng)
    (body : string) :
  m ≠ OTHER → (k < retries)%nat →
  (∀ i, (i < k)%nat → retryable m (server i) = true) →
  successful m (server k) = Some body →
  let '(t, r, _, _) := _make_request self m retries delay server g in
  r = Some body ∧ requests t = S k.
Proof.
  intros Hm Hk Hbefore Hok. unfold _make_request.
  destruct (initialize_cases self) as [_ Hinit].
  destruct (initialize self) as [t0 self']. simpl in Hinit.
  pose proof (attempt_loop_recovers self' m delay retries server retries 0 k g
                body Hm) as H.
  destruct (attempt_loop self' m delay retries server 0 retries g)
    as [[t r] g'].
  simpl in *. destruct H as [-> Hreq]; [lia | | done |].
  { intros i Hi. apply Hbefore. lia. }
  split; [done |]. rewrite requests_app, Hreq.
  destruct Hinit as [-> | ->]; simpl; unfold requests; simpl; lia.
Qed.

End RetryFacts.

(** ** [WalmartRetailer._make_request] *)

Module WalmartFacts.
Import BaseRetailer WalmartRetailer.

Section Failing.
Context (m : req_method) (retries : nat) (server : nat → exchange).
Hypothesis client_errors :
  ∀ i, server i = ClientError
       ∨ ∃ status text, server i = Status status text ∧ 400 ≤ status.

Lemma attempt_loop_client_errors (n attempt : nat) :
  (attempt + n = retries)%nat →
  let '(t, r) := attempt_loop m retries server attempt n in
  r = None ∧ requests t = n ∧ sleeps t = doublings attempt (n - 1).
Proof.
  revert attempt. induction n as [|n IH]; intros attempt Hsum; [done |].
  cbn [attempt_loop].
  assert (Hlast : (attempt <? retries - 1)%nat = negb (n =? 0)%nat).
  { destruct n; simpl.
    - apply Nat.ltb_ge. lia.
    - apply Nat.ltb_lt. lia. }
  rewrite Hlast.
  assert (Hgoal :
    let '(t, r) :=
      if negb (n =? 0)%nat then
        let (t, r) := attempt_loop m retries server (S attempt) n in
        (Requested m :: LoggedClientError (attempt + 1) retries
           :: Slept (2 ^ Z.of_nat attempt) :: t, r)
      else ([Requested m; LoggedClientError (attempt + 1) retries], None) in
    r = None ∧ requests t = S n
    ∧ sleeps t = doublings attempt (S n - 1)).
  { destruct n as [|n'].
    - done.
    - cbn [Nat.eqb negb]. specialize (IH (S attempt)).
      destruct (attempt_loop m retries server (S attempt) (S n')) as [t r].
      destruct IH as (-> & Hreq & Hsleeps); [lia |].
      split; [done |]. split.
      + unfold requests in *. simpl. by rewrite Hreq.
      + replace (S n' - 1)%nat with n' in Hsleeps by lia.
        replace (S (S n') - 1)%nat with (S n') by lia.
        cbn [sleeps doublings]. by rewrite Hsleeps. }
  destruct (client_errors attempt) as [-> | (status & text & -> & Hstatus)].
  - exact Hgoal.
  - unfold raises_for_status.
    by rewrite (proj2 (Z.leb_le 400 status) Hstatus).
Qed.
End Failing.

(** X14. Walmart's own [_make_request] tries again after every client error,
    a 404 or any other status from 400 on included: it makes exactly
    [retries] requests, sleeps 1, 2, 4, ... seconds between them, not
    after the last, and returns [None]. *)
Theorem walmart_retries_every_client_error (m : req_method) (retries : nat)
    (server : nat → exchange) :
  (∀ i, server i = ClientError
        ∨ ∃ status text, server i = Status status text ∧ 400 ≤ status) →
  let '(t, r) := _make_request m retries server in
  r = None ∧ requests t = retries ∧ sleeps t = doublings 0 (retries - 1).
Proof.
  intros H. unfold _make_request.
  by apply (attempt_loop_client_errors m retries server H retries 0).
Qed.

Lemma attempt_loop_text (m : req_method) (retries : nat)
    (server : nat → exchange) (n attempt : nat) (text : string) :
  (attempt_loop m retries server attempt n).2 = Some text →
  ∃ k status, (attempt ≤ k < attempt + n)%nat
    ∧ server k = Status status text ∧ status < 400
    ∧ requests (attempt_loop m retries server attempt n).1
      = (k - attempt + 1)%nat.
Proof.
  revert attempt. induction n as [|n IH]; intros attempt; [done |].
  cbn [attempt_loop].
  assert (Hretry :
    (if (attempt <? retries - 1)%nat then
       let (t, r) := attempt_loop m retries server (S attempt) n in
       (Requested m :: LoggedClientError (attempt + 1) retries
          :: Slept (2 ^ Z.of_nat attempt) :: t, r)
     else ([Requested m; LoggedClientError (attempt + 1) retries], None)).2
    = Some text →
    ∃ k status, (attempt ≤ k < attempt + S n)%nat
      ∧ server k = Status status text ∧ status < 400
      ∧ requests
          (if (attempt <? retries - 1)%nat then
             let (t, r) := attempt_loop m retries server (S attempt) n in
             (Requested m :: LoggedClientError (attempt + 1) retries
                :: Slept (2 ^ Z.of_nat attempt) :: t, r)
           else ([Requested m; LoggedClientError (attempt + 1) retries], None)).1
        = (k - attempt + 1)%nat).
  { destruct (attempt <? retries - 1)%nat; [| done].
    specialize (IH (S attempt)).
    destruct (attempt_loop m retries server (S attempt) n) as [t r].
    simpl. intros Hr. destruct (IH Hr) as (k & status & Hk & Hs & Hlt & Hreq).
    exists k, status. split; [lia |]. split; [done |]. split; [done |].
    unfold requests in *. simpl in *. rewrite Hreq. lia. }
  destruct (server attempt) as [status body | | |] eqn:Hs; try done.
  unfold raises_for_status. destruct (400 <=? status) eqn:Hstatus; [done |].
  simpl. intros [= ->]. exists attempt, status.
  split; [lia |]. split; [done |]. split; [by apply Z.leb_gt |].
  unfold requests. simpl. lia.
Qed.

(** X15. When Walmart's [_make_request] returns a text, it is the text of the
    first answer that was not a client error, an answer with a status
    below 400, and the requests made are those up to it. *)
Theorem walmart_text_comes_from_a_status_below_400 (m : req_method)
    (retries : nat) (server : nat → exchange) (text : string) :
  (_make_request m retries server).2 = Some text →
  ∃ k status, (k < retries)%nat
    ∧ server k = Status status text ∧ status < 400
    ∧ requests (_make_request m retries server).1 = S k.
Proof.
  unfold _make_request. intros Hr.
  destruct (attempt_loop_text m retries server retries 0 text Hr)
    as (k & status & Hk & Hs & Hlt & Hreq).
  exists k, status. split; [lia |]. split; [done |]. split; [done |].
  rewrite Hreq. lia.
Qed.

End WalmartFacts.

(** ** [TargetRetailer.add_to_cart] and [checkout] *)

Module TargetCartFacts.
Import Random BaseRetailer TargetRetailer TargetCart Observe.
Import RequestFacts RetryFacts.

Lemma cart_requests_did (t : list action) :
  cart_requests (Did <$> t) = requests t.
Proof.
  unfold cart_requests, requests. induction t as [|a t IH]; [done |].
  rewrite fmap_cons. simpl. destruct a; simpl; by rewrite ?IH.
Qed.

Lemma cart_requests_app (t t' : list step) :
  cart_requests (t ++ t') = (cart_requests t + cart_requests t')%nat.
Proof. unfold cart_requests. by rewrite List.filter_app, length_app. Qed.

(** X16. Target's [add_to_cart] makes no request of its own beyond the stock
    check, at most three in all; when the product page cannot be fetched
    it refuses the product and logs a warning. Its [checkout] makes no
    request and returns [True]. *)
Theorem target_cart_needs_the_product_page
    (parse_details : string → string → gmap string value)
    (self : BaseRetailer.t) (product_id : string)
    (server : nat → exchange) (g : rng) :
  let '(t, added, _, _) := add_to_cart parse_details self product_id server g in
  (cart_requests t ≤ 3)%nat
  ∧ ((_make_request self GET 3 1 server g).1.1.2 = None →
     added = false ∧ last t = Some (Noted WARNING FailedOutOfStock))
  ∧ cart_requests checkout.1 = 0%nat ∧ checkout.2 = true.
Proof.
  unfold add_to_cart, check_stock, get_product_details, _make_request.
  destruct (initialize_cases self) as [_ Hinit].
  destruct (initialize self) as [t0 self']. simpl in Hinit.
  pose proof (attempt_loop_requests self' GET 1 3 server 3 0 g) as Hreq.
  destruct (attempt_loop self' GET 1 3 server 0 3 g) as [[t r] g'].
  cbn [fst snd] in *.
  assert (Hcount : ∀ details l,
    (cart_requests (Noted INFO SimulatingAddToCart :: (Did <$> t0 ++ t)
                      ++ [Noted l details]) ≤ 3)%nat).
  { intros details l.
    change (Noted INFO SimulatingAddToCart :: (Did <$> t0 ++ t)
              ++ [Noted l details])
      with ([Noted INFO SimulatingAddToCart] ++ (Did <$> t0 ++ t)
              ++ [Noted l details]).
    rewrite !cart_requests_app, cart_requests_did, requests_app.
    destruct Hinit as [-> | ->]; unfold cart_requests, requests in *;
      simpl in *; lia. }
  destruct r as [[|c h]|].
  - simpl. split; [apply Hcount |]. split; [done | done].
  - simpl.
    destruct (truthy (default (VBool false) (parse_details product_id (String c h) !! "in_stock"%string)));
      (split; [apply Hcount |]; split; [done | done]).
  - simpl. split; [apply Hcount |]. split; [| done].
    intros _. split; [done |]. by rewrite last_cons, last_app.
Qed.

End TargetCartFacts.

(** ** The notification queue *)

Module QueueFacts.
Import RetailerCog Observe CogFacts.

Lemma task_dones_app (t t' : list action) :
  task_dones (t ++ t') = (task_dones t + task_dones t')%nat.
Proof. unfold task_dones. by rewrite List.filter_app, length_app. Qed.

Lemma process_one_task_done (d : discord) (m : Z * string) :
  task_dones (process_one d m) = 1%nat.
Proof.
  destruct m as [user_id message]. rewrite process_one_cases.
  rewrite task_dones_app. by destruct (get_user d user_id).
Qed.

(** X17. Whatever the deliveries do and whenever the bot closes, the loop
    takes the messages in order from the front of the queue: the trace
    is that of the taken messages, one pass and one [task_done] each, the
    messages left are the rest of the queue, and the loop stopped with
    messages left only because the bot was closed. *)
Theorem notification_queue_is_conserved (d : discord) (closed : nat → bool)
    (pass : nat) (queue : list (Z * string)) :
  let '(t, remaining) := _process_notifications d closed pass queue in
  ∃ n, take n queue ++ remaining = queue
       ∧ length (take n queue) = n
       ∧ t = concat (process_one d <$> take n queue)
       ∧ task_dones t = n
       ∧ (∀ i, (i < n)%nat → closed (pass + i)%nat = false)
       ∧ (remaining ≠ [] → closed (pass + n)%nat = true).
Proof.
  revert pass. induction queue as [|m queue IH]; intros pass.
  - exists 0%nat. repeat split; try done. intros i Hi. lia.
  - simpl. destruct (closed pass) eqn:Hclosed.
    + exists 0%nat. repeat split; try done.
      * intros i Hi. lia.
      * intros _. by rewrite Nat.add_0_r.
    + specialize (IH (S pass)).
      destruct (_process_notifications d closed (S pass) queue) as [t remaining].
      destruct IH as (n & Hq & Hlen & Ht & Hdone & Hopen & Hstop).
      exists (S n). cbn [take]. split; [by rewrite <- app_comm_cons, Hq |].
      split; [simpl; by rewrite Hlen |].
      split; [by rewrite fmap_cons, concat_cons, Ht |].
      split; [by rewrite task_dones_app, process_one_task_done, Hdone |].
      split.
      * intros [|i] Hi; [by rewrite Nat.add_0_r |].
        replace (pass + S i)%nat with (S pass + i)%nat by lia.
        apply Hopen. lia.
      * intros Hleft. replace (pass + S n)%nat with (S pass + n)%nat by lia.
        by apply Hstop.
Qed.

End QueueFacts.

(** ** [track_list] and [track_remove] *)

Module TrackListFacts.
Import PyStr Random RetailerDatabase PokemonTracker Invariant TrackList Observe.
Import DatabaseFacts TrackingFacts.

Lemma split_colon_product_key (r p : string) :
  is_Some (split_colon (product_key r p)).
Proof.
  unfold product_key. induction r as [|c r IH]; simpl.
  - eauto.
  - case_decide; [eauto |]. destruct IH as [[a b] ->]. eauto.
Qed.

(** The two parts [split(":", 1)] gives make the string again. *)
Lemma split_colon_join (k a b : string) :
  split_colon k = Some (a, b) → k = product_key a b.
Proof.
  unfold product_key. revert a. induction k as [|c k IH]; intros a; [done |].
  simpl. case_decide as Hc.
  - intros [= <- <-]. by subst c.
  - destruct (split_colon k) as [[a' b']|]; [| done].
    intros [= <- <-]. by rewrite (IH a' eq_refl) at 1.
Qed.

Lemma list_remove_sublist (x : string) (l : list string) (P : string → Prop) :
  Forall P l → Forall P (list_remove x l).
Proof.
  induction 1 as [|y l Hy Hl IH]; simpl; [constructor |].
  destruct (decide (x = y)); [done | by constructor].
Qed.

Lemma reachable_tracked_keys_split (s : state) :
  reachable s → tracked_keys_split (db s).
Proof.
  induction 1 as [g | s u r p _ IH | s u p _ IH | s u r p q _ IH | s u p _ IH
                 | s u c _ IH | s _ IH | d s _ IH | s g _ IH].
  - unfold new. pose proof (init_tracking g) as H.
    destruct (init g) as [d g']. simpl in *.
    intros u l. rewrite H. by rewrite lookup_empty.
  - rewrite track_add_db.
    pose proof (add_to_tracking_spec (db s) u (product_key r p)) as H.
    cbv zeta in H.
    destruct (add_to_tracking (db s) u (product_key r p)) as [db' b].
    simpl in *. destruct H as (Hu & _ & Hother & _).
    assert (Hl : Forall (λ k, is_Some (split_colon k)) (get_tracking_list (db s) u)).
    { unfold get_tracking_list.
      destruct (user_tracking (db s) !! u) eqn:E; [by eapply IH | constructor]. }
    intros u' l'. destruct (decide (u' = u)) as [-> | Hne].
    + rewrite Hu. intros [= <-]. case_decide; [done |].
      apply Forall_app. split; [done |].
      constructor; [apply split_colon_product_key | constructor].
    + rewrite Hother by done. apply IH.
  - rewrite track_remove_db. unfold remove_from_tracking.
    destruct (user_tracking (db s) !! u) as [l|] eqn:Hu; [| exact IH].
    case_decide; [| exact IH]. intros u' l'. simpl. rewrite lookup_insert.
    case_decide; [| apply IH].
    intros [= <-]. apply list_remove_sublist. by eapply IH.
  - exact IH.
  - simpl. unfold remove_from_buylist.
    destruct (user_buylists (db s) !! u) as [b|]; [| exact IH].
    destruct (b !! p); exact IH.
  - exact IH.
  - rewrite simulate_command_db. intros u l.
    rewrite simulate_preserves_tracking. apply IH.
  - rewrite check_stock_task_state.
    destruct (poll_db s) as [-> | [g ->]]; [exact IH |].
    intros u l. rewrite simulate_preserves_tracking. apply IH.
  - exact IH.
Qed.

Lemma rejoin_cons (r : string) (items : list string)
    (rest : list (string * list string)) :
  rejoin ((r, items) :: rest) = (product_key r <$> items) ++ rejoin rest.
Proof. unfold rejoin. by rewrite bind_cons. Qed.

Lemma group_append_rejoin (r item : string) (groups : list (string * list string)) :
  rejoin (group_append r item groups) ≡ₚ rejoin groups ++ [product_key r item].
Proof.
  induction groups as [|[r' items] rest IH]; cbn [group_append].
  - by rewrite rejoin_cons.
  - case_decide as Hr.
    + subst r'. rewrite !rejoin_cons, fmap_app.
      rewrite <- !app_assoc. apply Permutation_app_head.
      apply Permutation_app_comm.
    + rewrite !rejoin_cons, IH. by rewrite app_assoc.
Qed.

Lemma group_append_keys (r item : string) (groups : list (string * list string)) :
  NoDup groups.*1 → NoDup (group_append r item groups).*1
  ∧ ∀ x, x ∈ (group_append r item groups).*1 → x = r ∨ x ∈ groups.*1.
Proof.
  induction groups as [|[r' items] rest IH]; simpl.
  - intros _. split; [apply NoDup_singleton |].
    intros x ->%list_elem_of_singleton. by left.
  - intros [Hr' Hnd]%NoDup_cons. case_decide as Hr.
    + subst r'. simpl. split; [by apply NoDup_cons |]. intros x Hx. by right.
    + destruct (IH Hnd) as [IHnd IHin]. simpl. split.
      * apply NoDup_cons. split; [| done].
        intros Hin. destruct (IHin _ Hin) as [-> | Hin']; done.
      * intros x [-> | Hx]%elem_of_cons; [right; by left |].
        destruct (IHin _ Hx) as [-> | Hx']; [by left | right; by right].
Qed.

Lemma by_retailer_spec (l : list string) (groups : list (string * list string)) :
  Forall (λ k, is_Some (split_colon k)) l → NoDup groups.*1 →
  ∃ groups', by_retailer l groups = Some groups'
    ∧ rejoin groups' ≡ₚ rejoin groups ++ l
    ∧ NoDup groups'.*1
    ∧ (l ≠ [] → groups' ≠ []).
Proof.
  intros Hl. revert groups. induction Hl as [|k l [[r it] Hk] Hl IH]; intros groups Hnd.
  - exists groups. simpl. by rewrite app_nil_r.
  - simpl. rewrite Hk.
    destruct (group_append_keys r it groups Hnd) as [Hnd' _].
    destruct (IH _ Hnd') as (groups' & -> & Hperm & Hnd'' & _).
    exists groups'. split; [done |]. split; [| split; [done |]].
    + rewrite Hperm, group_append_rejoin.
      rewrite <- (split_colon_join k r it Hk). by rewrite <- app_assoc.
    + intros _ ->. apply Permutation_length in Hperm.
      pose proof (Permutation_length (group_append_rejoin r it groups)) as Hlen.
      rewrite length_app in Hperm, Hlen.
      change (length (rejoin [])) with 0%nat in Hperm.
      change (length [product_key r it]) with 1%nat in Hlen. lia.
Qed.

(** X18. In every state the cog reaches, [track_list] answers: with the text
    for an empty list, or with one field per retailer, no retailer twice,
    whose items are the tracked products, each under its own retailer and
    none lost or repeated. *)
Theorem tracked_products_are_grouped (s : state) (u : Z) :
  reachable s →
  ∃ answer, track_list (db s) u = Some answer
    ∧ match answer with
      | NothingTracked => get_tracking_list (db s) u = []
      | Fields groups =>
          rejoin groups ≡ₚ get_tracking_list (db s) u
          ∧ NoDup groups.*1 ∧ groups ≠ []
      end.
Proof.
  intros Hs. pose proof (reachable_tracked_keys_split s Hs u) as Hsplit.
  unfold track_list, get_tracking_list in *.
  destruct (user_tracking (db s) !! u) as [[|k l]|]; cbn [default].
  - by exists NothingTracked.
  - unfold id.
    destruct (by_retailer_spec (k :: l) [] (Hsplit _ eq_refl))
      as (groups & Hg & Hperm & Hnd & Hne); [constructor |].
    exists (Fields groups). rewrite Hg. split; [done |].
    split; [exact Hperm |]. split; [done | by apply Hne].
  - by exists NothingTracked.
Qed.

(** X19. In every state the cog reaches, [track_remove] answers that the
    product was removed when the user tracked it, and that the user does
    not track it otherwise; the split of the product key that the first
    answer needs never fails there. *)
Theorem track_remove_always_answers (s : state) (u : Z) (p : string) :
  reachable s →
  (track_remove s u p).1
  = if decide (p ∈ get_tracking_list (db s) u)
    then [Respond (ProductRemoved p)]
    else [Respond NotTracking].
Proof.
  intros Hs. pose proof (reachable_tracked_keys_split s Hs u) as Hsplit.
  unfold track_remove, remove_from_tracking, get_tracking_list in *.
  destruct (user_tracking (db s) !! u) as [l|]; cbn [default].
  - unfold id. specialize (Hsplit l eq_refl).
    destruct (decide (p ∈ l)) as [Hin | Hin]; [| done].
    rewrite Forall_forall in Hsplit.
    destruct (Hsplit p Hin) as [[a b] ->]. done.
  - by rewrite decide_False by apply not_elem_of_nil.
Qed.

End TrackListFacts.

(** ** The further properties on concrete inputs *)

Module ExtraChecks.
Import PyText PyStr Random RetailerDatabase PokemonTracker Eff Invariant Demo.
Import Keywords Samples Catalog Retry Observe.

Definition notice : text := of_ascii "Currently Unavailable".

Definition tracking_tin : state :=
  (track_add fresh 1 "Target" "Celebrations Tin").2.

Definition closing_after_one : nat → bool := λ i, (1 <=? i)%nat.

Definition two_messages : list (Z * string) :=
  [(7, "restock"%string); (8, "price drop"%string)].

Lemma unavailable_counts_as_in_stock_witness :
  notice ≠ []
  ∧ contains (of_ascii "unavailable") (ascii_lower notice) = true
  ∧ is_in_stock_keyword ascii_lower (Some notice) = true.
Proof.
  assert (Hn : notice ≠ []) by discriminate.
  assert (Hc : contains (of_ascii "unavailable") (ascii_lower notice) = true)
    by (vm_compute; reflexivity).
  split; [exact Hn |]. split; [exact Hc |].
  exact (proj2 (KeywordFacts.unavailable_counts_as_in_stock ascii_lower notice Hn Hc)).
Defined.

Lemma clean_product_name_again_witness :
  clean_product_name (Some (of_ascii "  Pikachu ex Box "))
  = Some (of_ascii "Pikachu ex Box")
  ∧ clean_product_name (Some (of_ascii "Pikachu ex Box"))
    = Some (of_ascii "Pikachu ex Box").
Proof.
  assert (Hc : clean_product_name (Some (of_ascii "  Pikachu ex Box "))
               = Some (of_ascii "Pikachu ex Box")) by (vm_compute; reflexivity).
  split; [exact Hc |].
  destruct (KeywordFacts.clean_product_name_again
              (Some (of_ascii "  Pikachu ex Box ")) (of_ascii "Pikachu ex Box"))
    as [_ H].
  exact (proj2 (H Hc)).
Defined.

Lemma untrack_undoes_track_witness :
  (tin ∉ get_tracking_list (tracked ∅) 2)
  ∧ (remove_from_tracking (add_to_tracking (tracked ∅) 2 tin).1 2 tin).2 = true.
Proof.
  assert (Hk : tin ∉ get_tracking_list (tracked ∅) 2).
  { change (get_tracking_list (tracked ∅) 2) with (@nil string).
    apply not_elem_of_nil. }
  split; [exact Hk |].
  pose proof (RegistryFacts.untrack_undoes_track (tracked ∅) 2 1 tin Hk) as H.
  cbv zeta in H.
  destruct (remove_from_tracking (add_to_tracking (tracked ∅) 2 tin).1 2 tin)
    as [db2 removed].
  exact (proj1 H).
Defined.

Lemma untrack_removes_the_product_witness :
  reachable tracking_tin
  ∧ (tin ∉ get_tracking_list
             (remove_from_tracking (db tracking_tin) 1 tin).1 1).
Proof.
  assert (Hs : reachable tracking_tin) by apply reach_track_add, reach_new.
  split; [exact Hs |].
  pose proof (RegistryFacts.untrack_removes_the_product tracking_tin 1 tin Hs)
    as H.
  cbv zeta in H.
  destruct (remove_from_tracking (db tracking_tin) 1 tin) as [db' removed].
  exact (proj1 (proj2 (proj2 H))).
Defined.

Lemma buylist_last_threshold_wins_witness :
  get_buylist (add_to_buylist (add_to_buylist (tracked ∅) 1 tin 30).1 1 tin 40).1 1
    !! tin = Some 40%Q.
Proof.
  exact (proj1 (RegistryFacts.buylist_last_threshold_wins (tracked ∅) 1 2 tin
                  tin 30 40)).
Defined.

Lemma alerts_follow_the_last_channel_witness :
  get_notification_channel
    (set_notification_channel
       (set_notification_channel (db wired) 1 8).1 1 9).1 1 = Some 9.
Proof.
  exact (proj1 (FanOutFacts.alerts_follow_the_last_channel delivering wired 1 8
                  9 9 (AutoPurchaseSuccessful "" "" 0))).
Defined.

Lemma stock_entries_are_the_listed_products_witness :
  reachable tracking_tin ∧ is_Some (stock_status (db tracking_tin) !! tin).
Proof.
  assert (Hs : reachable tracking_tin) by apply reach_track_add, reach_new.
  split; [exact Hs |].
  apply (CatalogFacts.stock_entries_are_the_listed_products tracking_tin tin
           "Target" Hs).
  exists "Target"%string, "Celebrations Tin"%string. split; [| reflexivity].
  change (get_products_by_retailer "Target")
    with ["Brilliant Stars ETB"; "Temporal Forces Booster Pack";
          "Celebrations Tin"]%string.
  right. right. by left.
Defined.

Lemma untracked_product_is_silent_witness :
  (poll wired).1 = Some (tin, true, Some (4999 # 100)%Q, tin_url)
  ∧ (tin ∉ get_tracking_list (db wired) 2)
  ∧ ∀ c e, AutoPurchase 1 tin (4999 # 100) ≠ ChannelSend c 2 e.
Proof.
  assert (He : (poll wired).1 = Some (tin, true, Some (4999 # 100)%Q, tin_url))
    by (vm_compute; reflexivity).
  assert (Hk : tin ∉ get_tracking_list (db wired) 2).
  { change (get_tracking_list (db wired) 2) with (@nil string).
    apply not_elem_of_nil. }
  assert (Ha : AutoPurchase 1 tin (4999 # 100)
               ∈ trace (check_stock_task delivering wired).1).
  { rewrite Checks.wired_run. right. by left. }
  split; [exact He |]. split; [exact Hk |].
  exact (proj1 (FanOutFacts.untracked_product_is_silent delivering wired 2 tin
                  true (Some (4999 # 100)%Q) tin_url _ He Hk Ha)).
Defined.

Lemma tracking_user_is_alerted_witness :
  (poll wired).1 = Some (tin, true, Some (4999 # 100)%Q, tin_url)
  ∧ ∃ retailer item,
      split_colon tin = Some (retailer, item)
      ∧ ChannelSend 7 1 (StockAlert item retailer true (Some (4999 # 100)%Q) tin_url)
        ∈ trace (check_stock_task delivering wired).1.
Proof.
  assert (He : (poll wired).1 = Some (tin, true, Some (4999 # 100)%Q, tin_url))
    by (vm_compute; reflexivity).
  assert (Hk : tin ∈ get_tracking_list (db wired) 1).
  { change (get_tracking_list (db wired) 1) with [tin]. by left. }
  assert (Hc : get_notification_channel (db wired) 1 = Some 7)
    by (vm_compute; reflexivity).
  assert (Hlog : Log ERROR StockTaskError
                 ∉ trace (check_stock_task delivering wired).1).
  { rewrite Checks.wired_run. intros H.
    repeat (apply elem_of_cons in H as [H | H]; [discriminate H |]).
    by apply elem_of_nil in H. }
  split; [exact He |].
  apply (FanOutFacts.tracking_user_is_alerted delivering wired 1 7 tin true
           (Some (4999 # 100)%Q) tin_url He Hk Hc); [discriminate | reflexivity |].
  exact Hlog.
Defined.

Lemma run_keeps_subscriptions_witness :
  user_buylists (db (check_stock_task delivering wired).2)
  = user_buylists (db wired).
Proof.
  exact (proj1 (proj2 (FanOutFacts.run_keeps_subscriptions delivering wired))).
Defined.

Lemma requests_stay_within_the_budget_witness :
  BaseRetailer.requests
    (BaseRetailer._make_request TargetRetailer.new OTHER 3 1 (always 200)
       jitters).1.1.1 = 0%nat.
Proof.
  pose proof (RetryFacts.requests_stay_within_the_budget TargetRetailer.new
                OTHER 3 1 (always 200) jitters) as H.
  destruct (BaseRetailer._make_request TargetRetailer.new OTHER 3 1
              (always 200) jitters) as [[[t r] self'] g'].
  exact (proj1 (proj2 H eq_refl)).
Defined.

Lemma body_comes_from_a_success_witness :
  (BaseRetailer._make_request TargetRetailer.new GET 3 1 recovering jitters).1.1.2
  = Some "<html>"%string
  ∧ ∃ k, (k < 3)%nat
         ∧ successful GET (recovering k) = Some "<html>"%string
         ∧ ∀ i, (i < k)%nat → retryable GET (recovering i) = true.
Proof.
  assert (Hr : (BaseRetailer._make_request TargetRetailer.new GET 3 1
                  recovering jitters).1.1.2 = Some "<html>"%string)
    by (vm_compute; reflexivity).
  split; [exact Hr |].
  exact (RetryFacts.body_comes_from_a_success TargetRetailer.new GET 3 1
           recovering jitters "<html>" Hr).
Defined.

Lemma request_recovers_after_retryable_answers_witness :
  GET ≠ OTHER ∧ (2 < 3)%nat
  ∧ (∀ i, (i < 2)%nat → retryable GET (recovering i) = true)
  ∧ successful GET (recovering 2) = Some "<html>"%string
  ∧ BaseRetailer.requests
      (BaseRetailer._make_request TargetRetailer.new GET 3 1 recovering
         jitters).1.1.1 = 3%nat.
Proof.
  assert (Hm : GET ≠ OTHER) by discriminate.
  assert (Hk : (2 < 3)%nat) by lia.
  assert (Hb : ∀ i, (i < 2)%nat → retryable GET (recovering i) = true).
  { intros [|[|i]] Hi; [reflexivity | reflexivity | lia]. }
  assert (Hok : successful GET (recovering 2) = Some "<html>"%string)
    by reflexivity.
  split; [exact Hm |]. split; [exact Hk |]. split; [exact Hb |].
  split; [exact Hok |].
  pose proof (RetryFacts.request_recovers_after_retryable_answers
                TargetRetailer.new GET 3 2 1 recovering jitters "<html>"
                Hm Hk Hb Hok) as H.
  destruct (BaseRetailer._make_request TargetRetailer.new GET 3 1 recovering
              jitters) as [[[t r] self'] g'].
  exact (proj2 H).
Defined.

Lemma walmart_retries_every_client_error_witness :
  (∀ i, failing_client i = BaseRetailer.ClientError
        ∨ ∃ status text, failing_client i = BaseRetailer.Status status text
                         ∧ 400 ≤ status)
  ∧ WalmartRetailer.sleeps
      (WalmartRetailer._make_request GET 3 failing_client).1 = [1; 2].
Proof.
  assert (Hf : ∀ i, failing_client i = BaseRetailer.ClientError
                    ∨ ∃ status text,
                        failing_client i = BaseRetailer.Status status text
                        ∧ 400 ≤ status) by (intros i; by left).
  split; [exact Hf |].
  pose proof (WalmartFacts.walmart_retries_every_client_error GET 3
                failing_client Hf) as H.
  destruct (WalmartRetailer._make_request GET 3 failing_client) as [t r].
  exact (proj2 (proj2 H)).
Defined.

Lemma walmart_text_comes_from_a_status_below_400_witness :
  (WalmartRetailer._make_request GET 3 recovering).2 = Some "<html>"%string
  ∧ ∃ k status, (k < 3)%nat
      ∧ recovering k = BaseRetailer.Status status "<html>" ∧ status < 400
      ∧ WalmartRetailer.requests
          (WalmartRetailer._make_request GET 3 recovering).1 = S k.
Proof.
  assert (Hr : (WalmartRetailer._make_request GET 3 recovering).2
               = Some "<html>"%string) by (vm_compute; reflexivity).
  split; [exact Hr |].
  exact (WalmartFacts.walmart_text_comes_from_a_status_below_400 GET 3
           recovering "<html>" Hr).
Defined.

Lemma target_cart_needs_the_product_page_witness :
  (BaseRetailer._make_request TargetRetailer.new GET 3 1 (always 404)
     jitters).1.1.2 = None
  ∧ (TargetCart.add_to_cart (λ _ _, ∅) TargetRetailer.new "tin" (always 404)
       jitters).1.1.2 = false.
Proof.
  assert (Hr : (BaseRetailer._make_request TargetRetailer.new GET 3 1
                  (always 404) jitters).1.1.2 = None)
    by (vm_compute; reflexivity).
  split; [exact Hr |].
  pose proof (TargetCartFacts.target_cart_needs_the_product_page (λ _ _, ∅)
                TargetRetailer.new "tin" (always 404) jitters) as H.
  destruct (TargetCart.add_to_cart (λ _ _, ∅) TargetRetailer.new "tin"
              (always 404) jitters) as [[[t added] self'] g'].
  exact (proj1 (proj1 (proj2 H) Hr)).
Defined.

Lemma notification_queue_is_conserved_witness :
  ∃ n, take n two_messages
       ++ (RetailerCog._process_notifications forbidding closing_after_one 0
             two_messages).2 = two_messages
       ∧ task_dones
           (RetailerCog._process_notifications forbidding closing_after_one 0
              two_messages).1 = n.
Proof.
  pose proof (QueueFacts.notification_queue_is_conserved forbidding
                closing_after_one 0 two_messages) as H.
  destruct (RetailerCog._process_notifications forbidding closing_after_one 0
              two_messages) as [t remaining].
  destruct H as (n & Hq & _ & _ & Hn & _).
  exists n. split; [exact Hq | exact Hn].
Defined.

Lemma tracked_products_are_grouped_witness :
  reachable tracking_tin
  ∧ ∃ answer, TrackList.track_list (db tracking_tin) 1 = Some answer.
Proof.
  assert (Hs : reachable tracking_tin) by apply reach_track_add, reach_new.
  split; [exact Hs |].
  destruct (TrackListFacts.tracked_products_are_grouped tracking_tin 1 Hs)
    as (answer & Ha & _).
  by exists answer.
Defined.

Lemma track_remove_always_answers_witness :
  reachable tracking_tin
  ∧ (track_remove tracking_tin 1 tin).1
    = if decide (tin ∈ get_tracking_list (db tracking_tin) 1)
      then [Respond (ProductRemoved tin)]
      else [Respond NotTracking].
Proof.
  assert (Hs : reachable tracking_tin) by apply reach_track_add, reach_new.
  split; [exact Hs |].
  exact (TrackListFacts.track_remove_always_answers tracking_tin 1 tin Hs).
Defined.

End ExtraChecks.

(** ** What a stock change sets off *)

Module EventFacts.
Import PyStr Random RetailerDatabase PokemonTracker Invariant Notices.
Import DatabaseFacts TrackingFacts Eff EffFacts TickFacts.










End EventFacts.

(** ** A request answered with 404 *)

Module NotFoundFacts.
Import Random BaseRetailer Retry RequestFacts RetryFacts.







End NotFoundFacts.

(** ** The invariant of the simulated stock *)

Module StockFacts.
Import PyStr Random RetailerDatabase Invariant Catalog.
Import DatabaseFacts CatalogFacts.

Lemma init_has_entries (g : rng) : stock_status (init g).1 ≠ ∅.
Proof.
  assert (Hk : is_Some (stock_status (init g).1
                          !! "Walmart:Scarlet & Violet ETB"%string)).
  { apply init_keys. unfold listed_keys.
    apply list_elem_of_bind. exists ("Walmart"%string,
      ["Scarlet & Violet ETB"; "Paldean Fates Booster Box";
       "Charizard ex Box"]%string).
    split; [by left | by left]. }
  intros He. rewrite He, lookup_empty in Hk. by destruct Hk.
Qed.

(** C10. An entry of the simulated stock that is out of stock has no
    price: this holds once the database is initialised, whatever the
    random draws, and every call of [simulate_stock_change] preserves it.
    A call on a stock with an entry, as the initialised stock is, returns
    a change: one entry has [in_stock] flipped and its url kept, its price
    is [None] when it is now out of stock, no other entry changes, and
    the lists of the users stay as they were. A call on an empty stock
    returns no change and leaves the database as it was. *)
Theorem price_none_when_out_of_stock (db : RetailerDatabase.t) (g : rng) :
  price_invariant (init g).1
  ∧ stock_status (init g).1 ≠ ∅
  ∧ let '(res, db', _) := simulate_stock_change db g in
    (price_invariant db → price_invariant db')
    ∧ user_tracking db' = user_tracking db
    ∧ user_buylists db' = user_buylists db
    ∧ user_channels db' = user_channels db
    ∧ match res with
      | Some (k, i, p, u) =>
          (∃ p0, stock_status db !! k = Some (negb i, p0, u))
          ∧ stock_status db' !! k = Some (i, p, u)
          ∧ (i = false → p = None)
          ∧ ∀ k', k' ≠ k → stock_status db' !! k' = stock_status db !! k'
      | None => stock_status db = ∅ ∧ db' = db
      end.
Proof.
  split; [apply stock_ok_price_invariant, init_stock_ok |].
  split; [apply init_has_entries |].
  pose proof (simulate_stock_change_spec db g) as H.
  destruct (simulate_stock_change db g) as [[res db'] g'].
  destruct H as (Ht & Hb & Hc & H).
  split; [| split; [done | split; [done | split; [done |]]]].
  - intros Hinv. destruct res as [[[[k i] p] u]|].
    + destruct H as (_ & Hst & Hp). intros k' p' u'. rewrite Hst.
      rewrite lookup_insert. case_decide as Heq; [| apply Hinv].
      intros [= -> <- <-]. exact Hp.
    + destruct H as [-> _]. exact Hinv.
  - destruct res as [[[[k i] p] u]|]; [| tauto].
    destruct H as (Hk & Hst & Hp). split; [exact Hk |]. rewrite Hst.
    split; [apply lookup_insert_eq |]. split.
    + intros ->. exact Hp.
    + intros k' Hne. by apply lookup_insert_ne.
Qed.

End StockFacts.

(** ** The properties of the events on concrete inputs *)

Module Instances.
Import PyStr Random RetailerDatabase PokemonTracker Eff Invariant Demo.
Import Notices Scenes.








Lemma price_none_when_out_of_stock_witness :
  price_invariant (init (constant 0)).1
  ∧ price_invariant
      (simulate_stock_change (init (constant 0)).1 (constant 0)).1.2.
Proof.
  destruct (StockFacts.price_none_when_out_of_stock (init (constant 0)).1
              (constant 0)) as (Hi & _ & H).
  split; [exact Hi |].
  destruct (simulate_stock_change (init (constant 0)).1 (constant 0))
    as [[res db'] g'].
  exact (proj1 H Hi).
Defined.

End Instances.
